(** * sprinkler-timer: relay bit mapping, transport and program sequencing

    A shallow embedding of [i2clib/relay.go] and [cmd/sprinkler/sprinkler.go].

    Conventions.
    - Go's [int] and [time.Duration] are 64-bit two's-complement integers;
      they are carried as [Z] and every arithmetic result is brought back
      into range with [wrap64].  [byte] is carried as a [Z] in [0,255].
    - A method with a pointer receiver returns the updated receiver next to
      its result.
    - Everything the process does to the outside (system calls on the I2C
      device node, sleeps, diagnostics, exit) is appended to a log; the
      device is an oracle answering each system call from the log so far. *)

From Stdlib Require Import ZArith String Ascii Bool Lia List.
Import ListNotations.

Local Open Scope Z_scope.

(** ** Machine integers *)

Module GoInt.

Definition intSize : Z := 64.
Definition minInt64 : Z := - 2 ^ 63.
Definition maxInt64 : Z := 2 ^ 63 - 1.

(** Two's-complement reduction to 64 bits, signed. *)
Definition wrap64 (x : Z) : Z := (x + 2 ^ 63) mod 2 ^ 64 - 2 ^ 63.

Definition add64 (x y : Z) : Z := wrap64 (x + y).
Definition mul64 (x y : Z) : Z := wrap64 (x * y).

(** Signed division truncates toward zero.  The only divisor in the
    program is the constant 100, so the overflow case [minInt64 / -1]
    does not arise. *)
Definition quo64 (x y : Z) : Z := Z.quot x y.

(** [x << n] on [int].  Go yields 0 once the count reaches the width.
    A negative count panics in Go; every call in the program is guarded
    by a test that makes the count non-negative. *)
Definition shl64 (x n : Z) : Z :=
  if n <? intSize then wrap64 (Z.shiftl x n) else 0.

(** Conversion to [byte]. *)
Definition to_byte (x : Z) : Z := x mod 256.

(** Number of one bits among the 64 bits of the representation. *)
Definition popcount64 (x : Z) : nat :=
  length (filter (fun i => Z.testbit x (Z.of_nat i)) (seq 0 64)).

End GoInt.

(** ** Errors, system calls and the log *)

Module World.

(** Error values.  Each constructor stands for one [fmt.Errorf] format of
    the program and keeps the arguments that the format prints. *)
Inductive error : Type :=
| External (msg : string)                        (* an error made outside the program *)
| InvalidBoard                                   (* "Invalid board number" *)
| CantOpenBus (bus : Z) (cause : error)          (* "Can't open i2c bus %d: %w" *)
| CantSetSlave (req addr : Z) (cause : error)    (* "Can't set slave: %x, %x: %w" *)
| SetError (cause : error)                       (* "Set error %w" *)
| ShortWrite (n len : Z)                         (* "Write error: %d of %d bytes written" *)
| ReadError (cause : error)                      (* "Read error: %w" *)
| ShortRead (n len : Z)                          (* "Read error: %d of %d bytes read" *)
| InvalidEvent (s : string)                      (* "Invalid event %q: expecting n:t" *)
| InvalidDuration (field : string) (cause : error) (* "Invalid duration %q: %w" *)
| DurationTooShort (dur off : Z)                 (* "Invalid duration %s: Must be at least %v" *)
| InvalidId (field : string) (cause : error)     (* "Invalid id %q: %w" *)
| NegativeId (field : string).                   (* "Invalid id %q: %w" printed with a nil cause *)

(** Calls on the device node. *)
Inductive syscall : Type :=
| SysOpen (bus : Z)                (* os.OpenFile("/dev/i2c-<bus>", O_RDWR, 0600) *)
| SysIoctl (fd req arg : Z)        (* unix.IoctlSetInt *)
| SysWrite (fd : Z) (buf : list Z) (* file.Write(buf) *)
| SysRead (fd : Z) (len : nat)     (* file.Read(buf), len(buf) = len *)
| SysClose (fd : Z).

(** What a call returns: a count (the descriptor for [SysOpen]), the bytes
    delivered by a read, and the error if any. *)
Record reply : Type := mkReply {
  rep_n : Z;
  rep_data : list Z;
  rep_err : option error
}.

(** Lines printed by the sprinkler command. *)
Inductive message : Type :=
| MsgSetFor (id dur : Z)                    (* "set %d for %s" *)
| MsgSetOff (id : Z)                        (* "set %d off" *)
| MsgGotSignal (sig : Z)                    (* "Got signal %s" *)
| MsgState (i : Z)                          (* "state=0x%x" *)
| MsgNoProgram                              (* "No program specified" *)
| MsgUsage
| MsgDuration (d : Z)
| MsgCantFindBoard (board bus : Z) (e : error)
| MsgCantTalk (e : error)                   (* "Can't talk to relays: %s" *)
| MsgInUse (mask : Z)                       (* "Relays already in use! (mask=0x%02x)" *)
| MsgFailed (e : error).                    (* "Failed: %s" *)

(** One entry of the log.  [CallSet] marks the entry into [Relay.Set]
    with the logical mask it was given. *)
Inductive entry : Type :=
| Sys (c : syscall)
| CallSet (state : Z)
| Sleep (d : Z)
| Stderr (m : message)
| Stdout (m : message)
| Notify
| Exit (code : Z).

(** The log, newest entry first. *)
Definition log : Type := list entry.

(** The device answers a call knowing everything that happened before. *)
Definition Device : Type := log -> syscall -> reply.

Definition IO (A : Type) : Type := log -> A * log.

Definition ret {A : Type} (a : A) : IO A := fun w => (a, w).

Definition bind {A B : Type} (m : IO A) (k : A -> IO B) : IO B :=
  fun w => let (a, w') := m w in k a w'.

Definition emit (e : entry) : IO unit := fun w => (tt, e :: w).

Definition sys (dev : Device) (c : syscall) : IO reply :=
  fun w => (dev w c, Sys c :: w).

(** The hardware writes of a log, newest first. *)
Fixpoint writes (w : log) : list (list Z) :=
  match w with
  | [] => []
  | Sys (SysWrite _ buf) :: rest => buf :: writes rest
  | _ :: rest => writes rest
  end.

(** The masks handed to [Relay.Set], newest first. *)
Fixpoint set_calls (w : log) : list Z :=
  match w with
  | [] => []
  | CallSet m :: rest => m :: set_calls rest
  | _ :: rest => set_calls rest
  end.

Definition last_write (w : log) : option (list Z) := hd_error (writes w).
Definition last_set (w : log) : option Z := hd_error (set_calls w).

End World.

Notation "x <- m ;; k" := (World.bind m (fun x => k))
  (at level 61, m at next level, right associativity).

(** ** i2clib *)

Module I2clib.
Import GoInt World.

Definition baseAddress : Z := 0x27.
Definition slaveAddress : Z := 0x0703.
Definition readAddress : Z := 0x00.
Definition writeAddress : Z := 0x01.

(** Map relay number to i2c address. *)
Definition relay2Addr : list Z := [0; 2; 1; 3; 6; 4; 5; 7].

(** Slice element assignment [l[i] = v]; Go panics out of range, which
    the table never is. *)
Fixpoint slice_set (l : list Z) (i : nat) (v : Z) : list Z :=
  match l, i with
  | [], _ => []
  | _ :: t, O => v :: t
  | h :: t, S j => h :: slice_set t j v
  end.

(** [init]: [addr2Relay[v] = byte(i)] for every [i, v] of [relay2Addr],
    starting from [make([]byte, len(relay2Addr))]. *)
Fixpoint init_loop (tbl : list Z) (i : Z) (acc : list Z) : list Z :=
  match tbl with
  | [] => acc
  | v :: rest => init_loop rest (i + 1) (slice_set acc (Z.to_nat v) (to_byte i))
  end.

Definition addr2Relay : list Z :=
  init_loop relay2Addr 0 (repeat 0 (length relay2Addr)).

(** The loop [for i := 0; i < 8; i++] shared by both converters: when bit
    [i] of [input] is set, OR [1 << tbl[i]] into the accumulator. *)
Fixpoint map_bits (tbl : list Z) (input : Z) (iters : nat) (i : Z) (v : Z) : Z :=
  match iters with
  | O => v
  | S k =>
      let v' :=
        if negb (Z.land input (Z.shiftl 1 i) =? 0)
        then Z.lor v (Z.shiftl 1 (nth (Z.to_nat i) tbl 0))
        else v in
      map_bits tbl input k (i + 1) v'
  end.

(** convert relay bit mask to i2c bit mask *)
Definition relay2ic (input : Z) : Z :=
  to_byte (map_bits relay2Addr input 8 0 0).

(** i2c bit mask to relay bit mask *)
Definition ic2relay (input : Z) : Z :=
  map_bits addr2Relay input 8 0 0.

(** *** Transport *)

Record Relay : Type := mkRelay {
  file : Z;   (* file descriptor of I2C device *)
  board : Z
}.

Section Transport.
Variable dev : Device.

(** boards are numbered 1-8 *)
Definition Board (r : Relay) (n : Z) : IO (Relay * option error) :=
  let r1 := mkRelay (file r) n in
  let addr := baseAddress - Z.land (n - 1) 7 in
  rep <- sys dev (SysIoctl (file r1) slaveAddress addr) ;;
  match rep_err rep with
  | Some e => ret (mkRelay (file r1) 0, Some (CantSetSlave slaveAddress addr e))
  | None => ret (r1, None)
  end.

Definition NewRelay (bus board : Z) : IO (option Relay * option error) :=
  if (board <? 1) || (board >? 8) then ret (None, Some InvalidBoard)
  else
    rep <- sys dev (SysOpen bus) ;;
    match rep_err rep with
    | Some e => ret (None, Some (CantOpenBus bus e))
    | None =>
        let r := mkRelay (rep_n rep) 0 in
        res <- Board r board ;;
        ret (Some (fst res), snd res)
    end.

(** [Set] writes the two bytes [writeAddress, relay2ic(state)]. *)
Definition Set_ (r : Relay) (state : Z) : IO (option error) :=
  _ <- emit (CallSet state) ;;
  let buf := [writeAddress; relay2ic state] in
  rep <- sys dev (SysWrite (file r) buf) ;;
  match rep_err rep with
  | Some e => ret (Some (SetError e))
  | None =>
      if negb (rep_n rep =? Z.of_nat (length buf))
      then ret (Some (ShortWrite (rep_n rep) (Z.of_nat (length buf))))
      else ret None
  end.

(** [Get] reads into the two-byte buffer [readAddress, 0]; the bytes
    delivered by the device overwrite its prefix. *)
Definition Get (r : Relay) : IO (Z * option error) :=
  let buf := [readAddress; 0] in
  rep <- sys dev (SysRead (file r) (length buf)) ;;
  let got := firstn (length buf) (map to_byte (rep_data rep)) in
  let n := Z.of_nat (length got) in
  let buf' := got ++ skipn (length got) buf in
  match rep_err rep with
  | Some e => ret (0, Some (ReadError e))
  | None =>
      if negb (n =? Z.of_nat (length buf))
      then ret (0, Some (ShortRead n (Z.of_nat (length buf))))
      else ret (ic2relay (nth 1 buf' 0), None)
  end.

Definition Close (r : Relay) : IO (option error) :=
  rep <- sys dev (SysClose (file r)) ;;
  ret (rep_err rep).

End Transport.

End I2clib.

(** ** cmd/sprinkler *)

Module Sprinkler.
Import GoInt World I2clib.

(** time.Second, in nanoseconds *)
Definition Second : Z := 1000000000.

(** Wait a bit between sprinkler zone activations *)
Definition offTime : Z := Second * 3.

(** An event is a sprinker zone number and watering duration *)
Record event : Type := mkEvent {
  id : Z;    (* sprinker number, 0 for none *)
  dur : Z    (* time duration, nanoseconds *)
}.

(** A program is a sequence of timed sprinkler zone activations. *)
Definition program : Type := list event.

(** [strings.Split(s, sep)] for a one-byte separator, the only kind the
    program uses: the fields between the separators, in order; a string
    without separator is its own single field. *)
Fixpoint Split (s : string) (sep : ascii) : list string :=
  match s with
  | EmptyString => [EmptyString]
  | String c rest =>
      if Ascii.eqb c sep then EmptyString :: Split rest sep
      else match Split rest sep with
           | [] => [String c EmptyString]
           | h :: t => String c h :: t
           end
  end.

(** scale is a convenience function to scale a duration *)
Definition scale (dur percent : Z) : Z :=
  let scaled := quo64 (mul64 dur percent) 100 in
  if scaled <? offTime then offTime else scaled.

(** duration computes the total run time of a program sequence. *)
Definition duration (p : program) (pct : Z) : Z :=
  let total := fold_left (fun total e => add64 total (scale (dur e) pct)) p 0 in
  add64 total (mul64 (Z.of_nat (length p)) offTime).

(** The mask [event.run] hands to [Set]. *)
Definition event_mask (e : event) : Z :=
  if id e >? 0 then shl64 1 (id e - 1) else 0.

Section Parsing.
(** The two standard-library parsers, with Go's result pairs. *)
Variable ParseDuration : string -> Z * option error.
Variable Atoi : string -> Z * option error.

Definition event_Set (e : event) (s : string) : event * option error :=
  let parts := Split s ":" in
  if negb (length parts =? 2)%nat then (e, Some (InvalidEvent s))
  else
    let (dur, err) := ParseDuration (nth 1 parts EmptyString) in
    match err with
    | Some c => (e, Some (InvalidDuration (nth 1 parts EmptyString) c))
    | None =>
        if dur <? offTime then (e, Some (DurationTooShort dur offTime))
        else
          let (id, err) := Atoi (nth 0 parts EmptyString) in
          match err with
          | Some c => (e, Some (InvalidId (nth 0 parts EmptyString) c))
          | None =>
              if id <? 0 then (e, Some (NegativeId (nth 0 parts EmptyString)))
              else (mkEvent id dur, None)
          end
    end.

(** The loop of [program.Set] over the comma-separated fields. *)
Fixpoint program_Set_loop (p : program) (fields : list string)
  : program * option error :=
  match fields with
  | [] => (p, None)
  | v :: rest =>
      match event_Set (mkEvent 0 0) v with
      | (_, Some err) => (p, Some err)
      | (e, None) => program_Set_loop (p ++ [e]) rest
      end
  end.

Definition program_Set (p : program) (s : string) : program * option error :=
  program_Set_loop p (Split s ",").

End Parsing.

(** Signal numbers (Linux). *)
Definition SIGURG : Z := 23.
Definition SIGUSR1 : Z := 10.
Definition SIGINT : Z := 2.
Definition SIGTERM : Z := 15.

Section Running.
Variable dev : Device.

(** Run activates the sprinkler, scaling the run time by pct. *)
Definition event_run (e : event) (r : Relay) (pct : Z) : IO (option error) :=
  let mask := event_mask e in
  err <- Set_ dev r mask ;;
  match err with
  | Some x => ret (Some x)
  | None =>
      let dur := scale (dur e) pct in
      _ <- emit (Stderr (MsgSetFor (id e) dur)) ;;
      _ <- emit (Sleep dur) ;;
      _ <- emit (Stderr (MsgSetOff (id e))) ;;
      _ <- Set_ dev r 0 ;;
      _ <- emit (Sleep offTime) ;;
      ret None
  end.

(** run the sequence. *)
Fixpoint program_run (p : program) (r : Relay) (pct : Z) : IO (option error) :=
  match p with
  | [] => ret None
  | e :: rest =>
      err <- event_run e r pct ;;
      match err with
      | Some x => ret (Some x)
      | None => program_run rest r pct
      end
  end.

(** One turn of the loop in the goroutine started by [cleanup], for the
    signal [s] taken from the channel.  The result says whether the
    process has exited. *)
Definition handle_signal (r : Relay) (s : Z) : IO bool :=
  if s =? SIGURG then ret false
  else
    _ <- emit (Stderr (MsgGotSignal s)) ;;
    if s =? SIGUSR1 then
      res <- Get dev r ;;
      _ <- emit (Stderr (MsgState (fst res))) ;;
      ret false
    else
      _ <- Set_ dev r 0 ;;
      _ <- Close dev r ;;
      _ <- emit (Exit 0) ;;
      ret true.

(** The loop itself, over the signals delivered in order. *)
Fixpoint handle_signals (r : Relay) (sigs : list Z) : IO bool :=
  match sigs with
  | [] => ret false
  | s :: rest =>
      exited <- handle_signal r s ;;
      if exited then ret true else handle_signals r rest
  end.

(** [main] after flag parsing.  [cleanup] is logged as [Notify]; the
    deferred [Close] runs when [main] returns past the [defer]. *)
Definition main (prog : program) (board bus scale_ : Z) (isDuration : bool)
  : IO unit :=
  if Z.of_nat (length prog) <? 1 then
    _ <- emit (Stderr MsgNoProgram) ;;
    emit (Stderr MsgUsage)
  else if isDuration then
    emit (Stdout (MsgDuration (duration prog scale_)))
  else
    res <- NewRelay dev bus board ;;
    match res with
    | (_, Some err) => emit (Stderr (MsgCantFindBoard board bus err))
    | (None, None) => ret tt
    | (Some r, None) =>
        got <- Get dev r ;;
        match got with
        | (_, Some err) => emit (Stderr (MsgCantTalk err))
        | (i, None) =>
            if negb (i =? 0) then emit (Stderr (MsgInUse i))
            else
              _ <- emit Notify ;;
              err <- program_run prog r scale_ ;;
              _ <- match err with
                   | Some e => emit (Stderr (MsgFailed e))
                   | None => ret tt
                   end ;;
              _ <- Close dev r ;;
              ret tt
        end
    end.

End Running.

End Sprinkler.

(** ** Test doubles for the standard-library parsers

    [time.ParseDuration] and [strconv.Atoi] are not part of the program;
    the development takes them as parameters.  The two functions below
    stand in for them when an example has to be evaluated.  [Atoi] reads an
    optional sign and decimal digits into the [int] range.
    [ParseDuration] reads only the form [<digits><unit>] with one of the
    units ns, us, ms, s, m, h and reports every other input as an error,
    so it agrees with the library on that form and is not a description
    of the library's grammar. *)

Module TestDouble.
Import GoInt World Sprinkler.

Fixpoint digits (s : string) (acc : Z) : option (Z * string) :=
  match s with
  | EmptyString => Some (acc, EmptyString)
  | String c rest =>
      let d := Z.of_N (N_of_ascii c) - 48 in
      if (0 <=? d) && (d <=? 9) then digits rest (acc * 10 + d)
      else Some (acc, s)
  end.

Definition is_digit (c : ascii) : bool :=
  let d := Z.of_N (N_of_ascii c) - 48 in (0 <=? d) && (d <=? 9).

Definition unsigned (s : string) : option (Z * string) :=
  match s with
  | EmptyString => None
  | String c _ => if is_digit c then digits s 0 else None
  end.

Definition Atoi (s : string) : Z * option error :=
  let syntax := (0, Some (External "strconv.Atoi: invalid syntax")) in
  let finish (sign : Z) (t : string) :=
    match unsigned t with
    | Some (n, EmptyString) =>
        let v := sign * n in
        if (minInt64 <=? v) && (v <=? maxInt64) then (v, None)
        else (if v <? 0 then minInt64 else maxInt64,
              Some (External "strconv.Atoi: value out of range"))
    | _ => syntax
    end in
  match s with
  | String "-" t => finish (-1) t
  | String "+" t => finish 1 t
  | _ => finish 1 s
  end.

Definition unit_ns (u : string) : option Z :=
  if String.eqb u "ns" then Some 1
  else if String.eqb u "us" then Some 1000
  else if String.eqb u "ms" then Some 1000000
  else if String.eqb u "s" then Some Second
  else if String.eqb u "m" then Some (60 * Second)
  else if String.eqb u "h" then Some (3600 * Second)
  else None.

Definition ParseDuration (s : string) : Z * option error :=
  let bad := (0, Some (External "time: invalid duration")) in
  match unsigned s with
  | Some (n, u) =>
      match unit_ns u with
      | Some k => if n * k <=? maxInt64 then (n * k, None) else bad
      | None => bad
      end
  | None => bad
  end.

End TestDouble.

(** ** Reference quantities *)

Module Reference.
Import GoInt Sprinkler.

(** The sum of the scaled durations of a program, as an exact integer. *)
Definition sum_scaled (p : program) (pct : Z) : Z :=
  fold_right (fun e acc => scale (dur e) pct + acc) 0 p.

End Reference.

(** ** Sample devices and programs used in the examples *)

Module Samples.
Import GoInt World I2clib Sprinkler.

(** Every call succeeds in full; the board reports all relays off. *)
Definition healthy : Device := fun _ c =>
  match c with
  | SysOpen _ => mkReply 3 [] None
  | SysIoctl _ _ _ => mkReply 0 [] None
  | SysWrite _ buf => mkReply (Z.of_nat (length buf)) [] None
  | SysRead _ _ => mkReply 2 [0; 0] None
  | SysClose _ => mkReply 0 [] None
  end.

(** As [healthy], but the board reports wire mask 4 (relay 2 energized). *)
Definition active : Device := fun w c =>
  match c with
  | SysRead _ _ => mkReply 2 [0; 4] None
  | _ => healthy w c
  end.

(** As [healthy], but every write of the all-off command fails. *)
Definition off_write_fails : Device := fun w c =>
  match c with
  | SysWrite _ [1; 0] => mkReply 0 [] (Some (External "remote I/O error"))
  | _ => healthy w c
  end.

(** As [healthy], but reads deliver a single byte. *)
Definition short_read : Device := fun w c =>
  match c with
  | SysRead _ _ => mkReply 1 [0] None
  | _ => healthy w c
  end.

Definition relay1 : Relay := mkRelay 3 1.

(** The program "1:10s,2:10s". *)
Definition two_zones : program :=
  [mkEvent 1 (10 * Second); mkEvent 2 (10 * Second)].

End Samples.

(** ** cmd/sprinkler: printing *)

Module SprinklerText.
Import World Sprinkler.

(** [strings.Join(elems, sep)] *)
Fixpoint Join (elems : list string) (sep : string) : string :=
  match elems with
  | [] => EmptyString
  | a :: rest =>
      match rest with
      | [] => a
      | _ :: _ => (a ++ sep ++ Join rest sep)%string
      end
  end.

Section Formatting.
(** The verb [%d] and [time.Duration.String], both of the standard
    library. *)
Variable FormatInt : Z -> string.
Variable DurationString : Z -> string.

(** [fmt.Sprintf("%d:%s", e.id, e.dur.String())] *)
Definition event_String (e : event) : string :=
  (FormatInt (id e) ++ ":" ++ DurationString (dur e))%string.

Definition program_String (p : program) : string :=
  Join (map event_String p) ",".

End Formatting.

End SprinklerText.

(** ** cmd/basic *)

Module BasicCmd.
Import World I2clib.

(** Lines printed by the basic command. *)
Inductive line : Type :=
| Usage
| CantFindBoard (board bus : Z) (e : error)   (* "Can't find board %d on bus %d: %s" *)
| SetMissingValue                             (* "set: missing value" *)
| SetInvalidInteger (e : error)               (* "set: invalid integer: %s" *)
| SetFailed (i : Z) (e : error)               (* "set error: %s" *)
| CantGetValue (e : error)                    (* "Can't get value: %s" *)
| Value (v : Z)                               (* "%d" on standard output *)
| InvalidCommand (cmd : string).              (* "Invalid command: %q" *)

Section Basic.
Variable Atoi : string -> Z * option error.
Variable dev : Device.

(** The [switch argv[0]] of [main]. *)
Definition dispatch (r : Relay) (cmd : string) (args : list string)
  : IO (list line) :=
  if String.eqb cmd "set" then
    match args with
    | [] => ret [SetMissingValue]
    | a :: _ =>
        let (i, err) := Atoi a in
        match err with
        | Some e => ret [SetInvalidInteger e]
        | None =>
            err <- Set_ dev r i ;;
            match err with
            | Some e => ret [SetFailed i e]
            | None => ret []
            end
        end
    end
  else if String.eqb cmd "get" then
    got <- Get dev r ;;
    match got with
    | (_, Some e) => ret [CantGetValue e]
    | (v, None) => ret [Value v]
    end
  else ret [InvalidCommand cmd; Usage].

(** [main] after flag parsing, [argv] being [flag.Args()].  The result is
    what was printed.  The deferred [Close] runs on every return that
    follows a successful [NewRelay]. *)
Definition main (board bus : Z) (argv : list string) : IO (list line) :=
  match argv with
  | [] => ret [Usage]
  | cmd :: args =>
      res <- NewRelay dev bus board ;;
      match res with
      | (_, Some err) => ret [CantFindBoard board bus err]
      | (None, None) => ret []
      | (Some r, None) =>
          out <- dispatch r cmd args ;;
          _ <- Close dev r ;;
          ret out
      end
  end.

End Basic.

End BasicCmd.

(** ** Test doubles for the standard-library printers

    [FormatInt] prints an [int] in decimal, as the verb [%d] does.
    [DurationString] stands in for [time.Duration.String] on whole seconds
    below one minute, which the library prints as [<n>s]; it is used on
    such durations only. *)

Module TestFormat.
Import Sprinkler.

Fixpoint decimal (digits : nat) (n : Z) (acc : string) : string :=
  match digits with
  | O => acc
  | S k =>
      let acc' := String (ascii_of_N (Z.to_N (48 + n mod 10))) acc in
      if n / 10 =? 0 then acc' else decimal k (n / 10) acc'
  end.

Definition FormatInt (n : Z) : string :=
  if n <? 0 then String "-" (decimal 20 (- n) EmptyString)
  else decimal 20 n EmptyString.

Definition DurationString (d : Z) : string :=
  (FormatInt (d / Second) ++ "s")%string.

End TestFormat.

(** ** Further reference quantities and sample devices *)

Module Shapes.
Import GoInt World I2clib Sprinkler.

(** What one event leaves in the log when its on-write succeeds, oldest
    entry first. *)
Definition event_trace (r : Relay) (pct : Z) (e : event) : list entry :=
  [CallSet (event_mask e);
   Sys (SysWrite (file r) [writeAddress; relay2ic (event_mask e)]);
   Stderr (MsgSetFor (id e) (scale (dur e) pct));
   Sleep (scale (dur e) pct);
   Stderr (MsgSetOff (id e));
   CallSet 0;
   Sys (SysWrite (file r) [writeAddress; 0]);
   Sleep offTime].

(** What an event leaves when its on-write fails, oldest entry first. *)
Definition failed_trace (r : Relay) (e : event) : list entry :=
  [CallSet (event_mask e);
   Sys (SysWrite (file r) [writeAddress; relay2ic (event_mask e)])].

(** Total time slept in a log. *)
Fixpoint slept (w : log) : Z :=
  match w with
  | [] => 0
  | Sleep d :: rest => d + slept rest
  | _ :: rest => slept rest
  end.

(** The system calls of a log, newest first. *)
Fixpoint syscalls (w : log) : list syscall :=
  match w with
  | [] => []
  | Sys c :: rest => c :: syscalls rest
  | _ :: rest => syscalls rest
  end.

(** An event as [event.Set] builds them. *)
Definition valid_event (e : event) : Prop := 0 <= id e /\ offTime <= dur e.

(** Occurrences of a byte in a string. *)
Fixpoint count_char (c : ascii) (s : string) : nat :=
  match s with
  | EmptyString => O
  | String a rest => (if Ascii.eqb a c then 1 else 0) + count_char c rest
  end.

(** What a round trip through text needs from the standard library at one
    event: the two printed fields contain neither separator and parse back
    to what was printed. *)
Definition prints_cleanly
    (ParseDuration Atoi : string -> Z * option error)
    (FormatInt DurationString : Z -> string) (e : event) : Prop :=
  count_char ":" (FormatInt (id e)) = O /\
  count_char ":" (DurationString (dur e)) = O /\
  count_char "," (FormatInt (id e)) = O /\
  count_char "," (DurationString (dur e)) = O /\
  Atoi (FormatInt (id e)) = (id e, None) /\
  ParseDuration (DurationString (dur e)) = (dur e, None).

(** A device whose writes always succeed in full. *)
Definition writes_succeed (dev : Device) : Prop :=
  forall w fd buf,
    rep_err (dev w (SysWrite fd buf)) = None /\
    rep_n (dev w (SysWrite fd buf)) = Z.of_nat (length buf).

(** As [Samples.healthy], but a read delivers the data byte of the most
    recent write. *)
Definition loopback : Device := fun w c =>
  match c with
  | SysRead _ _ =>
      mkReply 2 [0; match last_write w with
                    | Some [_; b] => b
                    | _ => 0
                    end] None
  | _ => Samples.healthy w c
  end.

(** As [Samples.healthy], but the board cannot be selected. *)
Definition no_board : Device := fun w c =>
  match c with
  | SysIoctl _ _ _ => mkReply 0 [] (Some (External "remote I/O error"))
  | _ => Samples.healthy w c
  end.

(** As [Samples.healthy], but the bus cannot be opened. *)
Definition no_bus : Device := fun w c =>
  match c with
  | SysOpen _ => mkReply 0 [] (Some (External "no such file or directory"))
  | _ => Samples.healthy w c
  end.

(** As [Samples.healthy], but the write that turns relay 2 on fails. *)
Definition zone2_fails : Device := fun w c =>
  match c with
  | SysWrite _ [1; 4] => mkReply 0 [] (Some (External "remote I/O error"))
  | _ => Samples.healthy w c
  end.

End Shapes.

(** ** The two goroutines of cmd/sprinkler

    [cleanup] starts the signal loop with [go func()] beside the flow of
    [main], and both use the same [*Relay] with no lock.  Each flow is cut
    here into steps that make at most one system call; a schedule says
    which of the two takes the next step. *)

Module Goroutines.
Import GoInt World I2clib Sprinkler.

(** Where [program.run] stands inside the [event.run] of the first event
    still to do. *)
Inductive phase : Type :=
| OnWrite     (* about to call r.Set(mask) *)
| Watering    (* about to print and sleep for the scaled duration *)
| OffWrite    (* about to print and call r.Set(0) *)
| Settling.   (* about to sleep for offTime *)

Inductive main_pc : Type :=
| Running (todo : program) (ph : phase)
| Returned (res : option error).

(** Where the signal loop stands; [pending] are the signals still in the
    channel. *)
Inductive handler_pc : Type :=
| Waiting (pending : list Z)    (* s := <-c *)
| Querying (pending : list Z)   (* about to call r.Get() and print *)
| Safing                        (* about to call r.Set(0) *)
| Closing                       (* about to call r.Close() *)
| Exiting                       (* about to call os.Exit(0) *)
| Exited.

Section Steps.
Variable dev : Device.
Variable r : Relay.
Variable pct : Z.

(** One step of [program.run]. *)
Definition main_step (m : main_pc) : IO main_pc :=
  match m with
  | Returned res => ret (Returned res)
  | Running [] _ => ret (Returned None)
  | Running (e :: rest) OnWrite =>
      err <- Set_ dev r (event_mask e) ;;
      match err with
      | Some x => ret (Returned (Some x))
      | None => ret (Running (e :: rest) Watering)
      end
  | Running (e :: rest) Watering =>
      _ <- emit (Stderr (MsgSetFor (id e) (scale (dur e) pct))) ;;
      _ <- emit (Sleep (scale (dur e) pct)) ;;
      ret (Running (e :: rest) OffWrite)
  | Running (e :: rest) OffWrite =>
      _ <- emit (Stderr (MsgSetOff (id e))) ;;
      _ <- Set_ dev r 0 ;;
      ret (Running (e :: rest) Settling)
  | Running (e :: rest) Settling =>
      _ <- emit (Sleep offTime) ;;
      ret (Running rest OnWrite)
  end.

(** One step of the signal loop.  With nothing in the channel it stays
    blocked. *)
Definition handler_step (h : handler_pc) : IO handler_pc :=
  match h with
  | Waiting [] => ret (Waiting [])
  | Waiting (s :: pending) =>
      if s =? SIGURG then ret (Waiting pending)
      else
        _ <- emit (Stderr (MsgGotSignal s)) ;;
        if s =? SIGUSR1 then ret (Querying pending) else ret Safing
  | Querying pending =>
      res <- Get dev r ;;
      _ <- emit (Stderr (MsgState (fst res))) ;;
      ret (Waiting pending)
  | Safing => _ <- Set_ dev r 0 ;; ret Closing
  | Closing => _ <- Close dev r ;; ret Exiting
  | Exiting => _ <- emit (Exit 0) ;; ret Exited
  | Exited => ret Exited
  end.

Fixpoint main_steps (n : nat) (m : main_pc) : IO main_pc :=
  match n with
  | O => ret m
  | S k => m' <- main_step m ;; main_steps k m'
  end.

Fixpoint handler_steps (n : nat) (h : handler_pc) : IO handler_pc :=
  match n with
  | O => ret h
  | S k => h' <- handler_step h ;; handler_steps k h'
  end.

(** The two flows under a schedule: [true] lets [program.run] take a
    step, [false] the signal loop.  Nothing runs once the process has
    exited. *)
Fixpoint interleave (schedule : list bool) (m : main_pc) (h : handler_pc)
  : IO (main_pc * handler_pc) :=
  match schedule with
  | [] => ret (m, h)
  | turn :: later =>
      match h with
      | Exited => ret (m, h)
      | _ =>
          if turn then m' <- main_step m ;; interleave later m' h
          else h' <- handler_step h ;; interleave later m h'
      end
  end.

End Steps.

(** SIGTERM arrives while zone 1 of "1:10s,2:10s" settles: the signal loop
    announces it and writes all-off, [program.run] wakes up and starts
    zone 2, then the signal loop closes the device and exits. *)
Definition racing_schedule : list bool :=
  [true; true; true; true; false; false; true; false; false].

End Goroutines.

(** * Properties *)

Import GoInt World I2clib Sprinkler Reference.

(** ** Bit mapping *)

Section BitMapping.

Lemma addr2Relay_value : addr2Relay = [0; 2; 1; 3; 5; 6; 4; 7].
Proof. reflexivity. Qed.

(** A boolean property checked on the first [n] naturals holds below [n]. *)
Lemma forall_below (P : Z -> bool) (n : nat) :
  forallb P (map Z.of_nat (seq 0 n)) = true ->
  forall m, 0 <= m < Z.of_nat n -> P m = true.
Proof.
  intros H m Hm.
  rewrite forallb_forall in H. apply H.
  apply in_map_iff. exists (Z.to_nat m). split; [lia|].
  apply in_seq. lia.
Qed.

Lemma forall_byte (P : Z -> bool) :
  forallb P (map Z.of_nat (seq 0 256)) = true ->
  forall m, 0 <= m <= 255 -> P m = true.
Proof.
  intros H m Hm. apply (forall_below P 256 H). lia.
Qed.

Lemma land_single_bit x i :
  0 <= i ->
  Z.land x (Z.shiftl 1 i) = if Z.testbit x i then 2 ^ i else 0.
Proof.
  intros Hi. rewrite Z.shiftl_1_l.
  apply Z.bits_inj'. intros n Hn.
  rewrite Z.land_spec, Z.pow2_bits_eqb by assumption.
  destruct (Z.eqb_spec i n) as [->|Hne].
  - destruct (Z.testbit x n); simpl.
    + rewrite Z.pow2_bits_eqb, Z.eqb_refl by assumption. reflexivity.
    + rewrite Z.bits_0. reflexivity.
  - rewrite andb_false_r.
    destruct (Z.testbit x i).
    + rewrite Z.pow2_bits_eqb by assumption.
      symmetry. apply Z.eqb_neq. assumption.
    + rewrite Z.bits_0. reflexivity.
Qed.

(** The loop only looks at bits 0 to 7 of its input. *)
Lemma map_bits_low8 tbl x fuel : forall i v,
  0 <= i -> i + Z.of_nat fuel <= 8 ->
  map_bits tbl x fuel i v = map_bits tbl (x mod 256) fuel i v.
Proof.
  induction fuel as [|k IH]; intros i v Hi Hb; [reflexivity|].
  cbn [map_bits].
  rewrite !land_single_bit by assumption.
  change 256 with (2 ^ 8).
  rewrite (Z.mod_pow2_bits_low x 8 i) by lia.
  apply IH; lia.
Qed.

Lemma relay2ic_low8 x : relay2ic x = relay2ic (x mod 256).
Proof.
  unfold relay2ic. f_equal. apply map_bits_low8; simpl; lia.
Qed.

Lemma relay2ic_range x : 0 <= relay2ic x <= 255.
Proof.
  unfold relay2ic, to_byte.
  pose proof (Z.mod_pos_bound (map_bits relay2Addr x 8 0 0) 256). lia.
Qed.

Lemma ic2relay_range x : 0 <= ic2relay x <= 255.
Proof.
  unfold ic2relay. rewrite map_bits_low8 by (simpl; lia).
  assert (Hx : 0 <= x mod 256 <= 255)
    by (pose proof (Z.mod_pos_bound x 256); lia).
  revert Hx. generalize (x mod 256). intros m Hm.
  pose proof (forall_byte
    (fun m => (0 <=? map_bits addr2Relay m 8 0 0)
              && (map_bits addr2Relay m 8 0 0 <=? 255))) as H.
  specialize (H eq_refl m Hm). cbv beta in H.
  apply andb_true_iff in H. lia.
Qed.

(** C1.  The two converters are total functions on 8-bit masks and
    inverse to each other: for every mask [m] in [0,255],
    [ic2relay (relay2ic m) = m] and [relay2ic (ic2relay m) = m], and both
    results stay in [0,255]. *)
Theorem relay2ic_ic2relay_inverse (m : Z) :
  0 <= m <= 255 ->
  ic2relay (relay2ic m) = m /\ relay2ic (ic2relay m) = m /\
  0 <= relay2ic m <= 255 /\ 0 <= ic2relay m <= 255.
Proof.
  intros Hm.
  pose proof (forall_byte
    (fun m => (ic2relay (relay2ic m) =? m) && (relay2ic (ic2relay m) =? m))) as H.
  assert (Hall : forallb
    (fun m => (ic2relay (relay2ic m) =? m) && (relay2ic (ic2relay m) =? m))
    (map Z.of_nat (seq 0 256)) = true) by (vm_compute; reflexivity).
  specialize (H Hall m Hm). cbv beta in H.
  apply andb_true_iff in H. destruct H as [H1 H2].
  apply Z.eqb_eq in H1. apply Z.eqb_eq in H2.
  repeat split; try assumption; try apply relay2ic_range; apply ic2relay_range.
Qed.

Lemma relay2ic_ic2relay_inverse_witness :
  ic2relay (relay2ic 5) = 5 /\ relay2ic (ic2relay 5) = 5 /\
  0 <= relay2ic 5 <= 255 /\ 0 <= ic2relay 5 <= 255.
Proof. apply (relay2ic_ic2relay_inverse 5). lia. Defined.

End BitMapping.

(** ** Transport and sequencing *)

Ltac io_unfold :=
  unfold event_run, handle_signal, Set_, Get, Close, Board, NewRelay,
         bind, ret, emit, sys in *.

Section Sequencing.
Variable dev : Device.

(** What [Set] leaves in the log, whatever the device answers. *)
Lemma Set_log r state w :
  snd (Set_ dev r state w)
  = Sys (SysWrite (file r) [writeAddress; relay2ic state]) :: CallSet state :: w.
Proof.
  io_unfold. cbn.
  destruct (rep_err _); [reflexivity|].
  destruct (negb _); reflexivity.
Qed.

(** [event.run], one step at a time. *)
Lemma event_run_unfold e r pct w :
  event_run dev e r pct w =
  match Set_ dev r (event_mask e) w with
  | (Some x, w1) => (Some x, w1)
  | (None, w1) =>
      (None,
       Sleep offTime
       :: snd (Set_ dev r 0
                 (Stderr (MsgSetOff (id e))
                  :: Sleep (scale (dur e) pct)
                  :: Stderr (MsgSetFor (id e) (scale (dur e) pct)) :: w1)))
  end.
Proof.
  unfold event_run. cbv [bind emit ret].
  destruct (Set_ dev r (event_mask e) w) as [[x|] w1]; [reflexivity|].
  match goal with |- context [Set_ dev r 0 ?l] => destruct (Set_ dev r 0 l) end.
  reflexivity.
Qed.

(** [event.run] returns exactly what the on-write returned. *)
Lemma event_run_result e r pct w :
  fst (event_run dev e r pct w) = fst (Set_ dev r (event_mask e) w).
Proof.
  rewrite event_run_unfold.
  destruct (Set_ dev r (event_mask e) w) as [[x|] w1]; reflexivity.
Qed.

(** The log of an event whose on-write succeeded. *)
Lemma event_run_ok_log e r pct w w' :
  event_run dev e r pct w = (None, w') ->
  w' = Sleep offTime
       :: Sys (SysWrite (file r) [writeAddress; relay2ic 0]) :: CallSet 0
       :: Stderr (MsgSetOff (id e))
       :: Sleep (scale (dur e) pct)
       :: Stderr (MsgSetFor (id e) (scale (dur e) pct))
       :: Sys (SysWrite (file r) [writeAddress; relay2ic (event_mask e)])
       :: CallSet (event_mask e) :: w.
Proof.
  rewrite event_run_unfold.
  pose proof (Set_log r (event_mask e) w) as H1.
  destruct (Set_ dev r (event_mask e) w) as [[x|] w1]; [discriminate|].
  cbn [snd] in H1. subst w1. rewrite Set_log.
  intros H. inversion H. reflexivity.
Qed.

(** The log of an event whose on-write failed: nothing follows it. *)
Lemma event_run_err_log e r pct w x w' :
  event_run dev e r pct w = (Some x, w') ->
  w' = Sys (SysWrite (file r) [writeAddress; relay2ic (event_mask e)])
       :: CallSet (event_mask e) :: w.
Proof.
  rewrite event_run_unfold.
  pose proof (Set_log r (event_mask e) w) as H1.
  destruct (Set_ dev r (event_mask e) w) as [[y|] w1]; [|discriminate].
  cbn [snd] in H1. subst w1. intros H. inversion H. reflexivity.
Qed.

Lemma program_run_ok_last p r pct : forall w w',
  p <> [] ->
  program_run dev p r pct w = (None, w') ->
  last_write w' = Some [writeAddress; 0] /\ last_set w' = Some 0.
Proof.
  induction p as [|e rest IH]; intros w w' Hne Hrun; [congruence|].
  cbn [program_run] in Hrun. unfold bind in Hrun.
  destruct (event_run dev e r pct w) as [[x|] w1] eqn:E.
  - discriminate.
  - destruct rest as [|e2 rest2].
    + cbn in Hrun. inversion Hrun. subst w'.
      apply event_run_ok_log in E. subst w1. split; reflexivity.
    + apply (IH w1 w'); [discriminate | assumption].
Qed.

(** A terminating signal: all-off write, close, exit. *)
Lemma handle_signal_terminates r s w :
  s <> SIGURG -> s <> SIGUSR1 ->
  handle_signal dev r s w
  = (true, Exit 0 :: Sys (SysClose (file r))
           :: Sys (SysWrite (file r) [writeAddress; relay2ic 0]) :: CallSet 0
           :: Stderr (MsgGotSignal s) :: w).
Proof.
  intros H1 H2. unfold handle_signal.
  apply Z.eqb_neq in H1. apply Z.eqb_neq in H2. rewrite H1.
  cbv [bind emit ret Close sys]. rewrite H2.
  match goal with |- context [Set_ dev r 0 ?l] =>
    pose proof (Set_log r 0 l) as H3; destruct (Set_ dev r 0 l) as [o w2] end.
  cbn [snd] in H3. subst w2. reflexivity.
Qed.

(** The query signal and the runtime's own signal write nothing. *)
Lemma handle_signal_query r s w :
  s = SIGURG \/ s = SIGUSR1 ->
  fst (handle_signal dev r s w) = false /\
  writes (snd (handle_signal dev r s w)) = writes w.
Proof.
  intros [-> | ->]; unfold handle_signal; cbn.
  - split; reflexivity.
  - io_unfold. cbn. destruct (rep_err _); [split; reflexivity|].
    destruct (negb _); split; reflexivity.
Qed.

(** A failing on-write ends the run at once: the error is returned and
    nothing is logged after the failed write. *)
Lemma program_run_stops_at_on_write_failure e rest r pct w x :
  fst (Set_ dev r (event_mask e) w) = Some x ->
  program_run dev (e :: rest) r pct w
  = (Some x,
     Sys (SysWrite (file r) [writeAddress; relay2ic (event_mask e)])
     :: CallSet (event_mask e) :: w).
Proof.
  intros Hset. cbn [program_run]. unfold bind.
  rewrite event_run_unfold.
  pose proof (Set_log r (event_mask e) w) as Hlog.
  destruct (Set_ dev r (event_mask e) w) as [[y|] w1]; cbn [fst snd] in *;
    [|discriminate].
  inversion Hset. subst. reflexivity.
Qed.

(** Whatever signals are delivered, the goroutine exits the process only
    at the end of a turn that wrote the all-off command, and it does exit
    once a signal other than SIGURG and SIGUSR1 is among them. *)
Lemma handle_signals_exit r sigs : forall w,
  (fst (handle_signals dev r sigs w) = true ->
     hd_error (snd (handle_signals dev r sigs w)) = Some (Exit 0) /\
     last_write (snd (handle_signals dev r sigs w)) = Some [writeAddress; 0] /\
     last_set (snd (handle_signals dev r sigs w)) = Some 0) /\
  (Exists (fun s => s <> SIGURG /\ s <> SIGUSR1) sigs ->
     fst (handle_signals dev r sigs w) = true).
Proof.
  induction sigs as [|s rest IH]; intros w; cbn [handle_signals].
  - split; [discriminate | intros H; inversion H].
  - unfold bind.
    destruct (Z.eq_dec s SIGURG) as [Hu|Hu];
      [|destruct (Z.eq_dec s SIGUSR1) as [Hq|Hq]].
    + destruct (handle_signal_query r s w (or_introl Hu)) as [Hf _].
      destruct (handle_signal dev r s w) as [b w1]. cbn [fst] in Hf. subst b.
      destruct (IH w1) as [IH1 IH2]. split; [exact IH1|].
      intros Hex. apply IH2.
      inversion Hex as [? ? [Hs _]|]; [contradiction | assumption].
    + destruct (handle_signal_query r s w (or_intror Hq)) as [Hf _].
      destruct (handle_signal dev r s w) as [b w1]. cbn [fst] in Hf. subst b.
      destruct (IH w1) as [IH1 IH2]. split; [exact IH1|].
      intros Hex. apply IH2.
      inversion Hex as [? ? [_ Hs]|]; [contradiction | assumption].
    + rewrite (handle_signal_terminates r s w Hu Hq).
      split; [intros _; repeat split | intros _; reflexivity].
Qed.

End Sequencing.

(** ** The run, the read and the off invariant *)

(** C2.  Evaluation at a device on which every write of the all-off
    command fails.  Running "1:10s,2:10s" there, the off-write of zone 1
    fails, yet zone 2 is attempted and [program.run] returns nil: the
    failure of an off-write is neither propagated nor does it stop the
    sequence.  Only a failure of the on-write does (lemma
    [event_run_result]). *)
Theorem off_write_failure_is_dropped :
  rep_err (Samples.off_write_fails [] (SysWrite 3 [writeAddress; relay2ic 0]))
    = Some (External "remote I/O error") /\
  fst (program_run Samples.off_write_fails Samples.two_zones Samples.relay1 100 [])
    = None /\
  rev (set_calls
         (snd (program_run Samples.off_write_fails Samples.two_zones
                 Samples.relay1 100 [])))
    = [1; 0; 2; 0] /\
  rev (writes
         (snd (program_run Samples.off_write_fails Samples.two_zones
                 Samples.relay1 100 [])))
    = [[1; 1]; [1; 0]; [1; 4]; [1; 0]].
Proof. vm_compute. repeat split. Qed.

(** C3, as stated, fails: on a healthy device [Get] issues no write at
    all, so the two-byte write [0x00, 0x00] is not among the writes of its
    log, which consists of the single read. *)
Lemma Get_issues_no_write :
  snd (Get Samples.healthy Samples.relay1 []) = [Sys (SysRead 3 2)] /\
  ~ In [readAddress; 0] (writes (snd (Get Samples.healthy Samples.relay1 []))).
Proof.
  split; [reflexivity|]. cbn. intros H. exact H.
Qed.

(** C3, amended.  [Get] issues no write; it performs one read of 2 bytes
    and returns [ic2relay] of the second byte read.  A read error, or a
    read that delivers a number of bytes other than 2, yields an error. *)
Theorem Get_reads_two_bytes (dev : Device) (r : Relay) (w : log) :
  snd (Get dev r w) = Sys (SysRead (file r) 2) :: w /\
  writes (snd (Get dev r w)) = writes w /\
  (forall e, rep_err (dev w (SysRead (file r) 2)) = Some e ->
     fst (Get dev r w) = (0, Some (ReadError e))) /\
  (rep_err (dev w (SysRead (file r) 2)) = None ->
   length (firstn 2 (map to_byte (rep_data (dev w (SysRead (file r) 2))))) <> 2%nat ->
     fst (Get dev r w)
     = (0, Some (ShortRead
                   (Z.of_nat (length (firstn 2 (map to_byte
                      (rep_data (dev w (SysRead (file r) 2))))))) 2))) /\
  (forall b0 b1,
   rep_err (dev w (SysRead (file r) 2)) = None ->
   firstn 2 (map to_byte (rep_data (dev w (SysRead (file r) 2)))) = [b0; b1] ->
     fst (Get dev r w) = (ic2relay b1, None)).
Proof.
  unfold Get. cbv [bind sys ret].
  change (length [readAddress; 0]) with 2%nat.
  set (rep := dev w (SysRead (file r) 2)).
  set (got := firstn 2 (map to_byte (rep_data rep))).
  assert (Hlog : forall (a b : Z * option error) (c : bool),
            snd (match rep_err rep with
                 | Some e => (fun w0 : log => ((0, Some (ReadError e)), w0))
                 | None => if c then (fun w0 : log => (a, w0))
                           else (fun w0 : log => (b, w0))
                 end (Sys (SysRead (file r) 2) :: w))
            = Sys (SysRead (file r) 2) :: w).
  { intros a b c. destruct (rep_err rep); [reflexivity|]. destruct c; reflexivity. }
  split; [apply Hlog|].
  split; [rewrite Hlog; reflexivity|].
  split; [|split].
  - intros e He. rewrite He. reflexivity.
  - intros He Hlen. rewrite He.
    change (Z.of_nat 2) with 2.
    destruct (Z.eqb_spec (Z.of_nat (length got)) 2) as [Heq|Hne]; [lia|].
    reflexivity.
  - intros b0 b1 He Hgot. rewrite He, Hgot. reflexivity.
Qed.

Lemma Get_reads_two_bytes_witness :
  fst (Get Samples.active Samples.relay1 []) = (ic2relay 4, None) /\
  fst (Get Samples.short_read Samples.relay1 [])
  = (0, Some (ShortRead 1 2)).
Proof.
  split.
  - apply (proj2 (proj2 (proj2 (proj2
             (Get_reads_two_bytes Samples.active Samples.relay1 [])))) 0 4);
      reflexivity.
  - apply (proj1 (proj2 (proj2 (proj2
             (Get_reads_two_bytes Samples.short_read Samples.relay1 [])))));
      [reflexivity | cbn; lia].
Defined.

(** The off invariant without interleaving.  When [program.run] has gone
    through a non-empty program and returned nil, the most recent write on the device is the all-off
    command [0x01, 0x00], issued by [Set(0)].  When the signal goroutine
    takes a signal other than SIGURG and SIGUSR1, at whatever point [wi]
    the process has reached, it issues [Set(0)], closes the device and
    exits, so the most recent write is again the all-off command; over any
    sequence of delivered signals the process is exited only that way.
    The turn of the goroutine is taken here as one step, with no step of
    the main flow inside it. *)
Theorem off_invariant (dev : Device) (p : program) (r : Relay) (pct : Z)
    (w w' : log) (s : Z) (sigs : list Z) :
  (p <> [] -> program_run dev p r pct w = (None, w') ->
     last_write w' = Some [writeAddress; 0] /\ last_set w' = Some 0) /\
  (s <> SIGURG -> s <> SIGUSR1 ->
     forall wi,
       fst (handle_signal dev r s wi) = true /\
       hd_error (snd (handle_signal dev r s wi)) = Some (Exit 0) /\
       last_write (snd (handle_signal dev r s wi)) = Some [writeAddress; 0] /\
       last_set (snd (handle_signal dev r s wi)) = Some 0) /\
  (forall wi,
     fst (handle_signals dev r sigs wi) = true ->
       hd_error (snd (handle_signals dev r sigs wi)) = Some (Exit 0) /\
       last_write (snd (handle_signals dev r sigs wi)) = Some [writeAddress; 0] /\
       last_set (snd (handle_signals dev r sigs wi)) = Some 0).
Proof.
  split; [|split].
  - intros Hne Hrun. exact (program_run_ok_last dev p r pct w w' Hne Hrun).
  - intros H1 H2 wi.
    rewrite (handle_signal_terminates dev r s wi H1 H2).
    repeat split.
  - intros wi. exact (proj1 (handle_signals_exit dev r sigs wi)).
Qed.

Lemma off_invariant_witness :
  (last_write (snd (program_run Samples.healthy Samples.two_zones
                      Samples.relay1 100 [])) = Some [writeAddress; 0] /\
   last_set (snd (program_run Samples.healthy Samples.two_zones
                    Samples.relay1 100 [])) = Some 0) /\
  last_write (snd (handle_signal Samples.healthy Samples.relay1 SIGTERM
                     [Sys (SysWrite 3 [1; 1]); CallSet 1]))
  = Some [writeAddress; 0] /\
  last_write (snd (handle_signals Samples.healthy Samples.relay1
                     [SIGURG; SIGUSR1; SIGINT; SIGTERM]
                     [Sys (SysWrite 3 [1; 1]); CallSet 1]))
  = Some [writeAddress; 0].
Proof.
  pose proof (off_invariant Samples.healthy Samples.two_zones Samples.relay1 100 []
                (snd (program_run Samples.healthy Samples.two_zones
                        Samples.relay1 100 [])) SIGTERM
                [SIGURG; SIGUSR1; SIGINT; SIGTERM]) as [Hrun [Hsig Hall]].
  split; [|split].
  - apply Hrun; [discriminate | reflexivity].
  - apply Hsig; discriminate.
  - apply Hall. reflexivity.
Defined.

(** ** Durations *)

Section Durations.

Lemma wrap64_absorb a b : wrap64 (wrap64 a + b) = wrap64 (a + b).
Proof.
  unfold wrap64. f_equal.
  replace ((a + 2 ^ 63) mod 2 ^ 64 - 2 ^ 63 + b + 2 ^ 63)
    with ((a + 2 ^ 63) mod 2 ^ 64 + b) by ring.
  rewrite Zplus_mod_idemp_l. f_equal. ring.
Qed.

Lemma wrap64_absorb_r a b : wrap64 (a + wrap64 b) = wrap64 (a + b).
Proof. rewrite (Z.add_comm a), wrap64_absorb. f_equal. ring. Qed.

Lemma wrap64_in_range x : minInt64 <= x <= maxInt64 -> wrap64 x = x.
Proof.
  unfold wrap64, minInt64, maxInt64. intros H.
  rewrite Z.mod_small; lia.
Qed.

Lemma add64_mul64 a b c : add64 a (mul64 b c) = wrap64 (a + b * c).
Proof. unfold add64, mul64. apply wrap64_absorb_r. Qed.

Lemma fold_total p pct : forall acc c,
  wrap64 (fold_left (fun total e => add64 total (scale (dur e) pct)) p acc + c)
  = wrap64 (acc + sum_scaled p pct + c).
Proof.
  induction p as [|e rest IH]; intros acc c; cbn [fold_left sum_scaled fold_right].
  - f_equal. ring.
  - rewrite IH. unfold add64.
    fold (sum_scaled rest pct).
    replace (wrap64 (acc + scale (dur e) pct) + sum_scaled rest pct + c)
      with (wrap64 (acc + scale (dur e) pct) + (sum_scaled rest pct + c)) by ring.
    rewrite wrap64_absorb. f_equal. ring.
Qed.

(** The floor of [scale]. *)
Lemma scale_floor d pct : offTime <= scale d pct.
Proof.
  unfold scale. destruct (Z.ltb_spec (quo64 (mul64 d pct) 100) offTime); lia.
Qed.

End Durations.

(** C5.  [program.duration] is the sum over the events of
    [scale(e.dur, pct)] plus [len(p)] times the settling delay, in
    [time.Duration] arithmetic: the exact sum reduced to 64 bits, hence the
    exact sum itself whenever that fits a [time.Duration].  The program
    parsed from "1:10s,2:10s" has total duration 26 seconds at scale 100
    with the 3 second delay. *)
Theorem duration_formula (p : program) (pct : Z) :
  duration p pct
  = wrap64 (sum_scaled p pct + Z.of_nat (length p) * offTime) /\
  (minInt64 <= sum_scaled p pct + Z.of_nat (length p) * offTime <= maxInt64 ->
   duration p pct = sum_scaled p pct + Z.of_nat (length p) * offTime) /\
  (forall ParseDuration Atoi,
     ParseDuration "10s"%string = (10 * Second, None) ->
     Atoi "1"%string = (1, None) ->
     Atoi "2"%string = (2, None) ->
     exists q,
       program_Set ParseDuration Atoi [] "1:10s,2:10s" = (q, None) /\
       offTime = 3 * Second /\
       duration q 100 = 26 * Second).
Proof.
  assert (Hd : duration p pct
               = wrap64 (sum_scaled p pct + Z.of_nat (length p) * offTime)).
  { unfold duration.
    rewrite add64_mul64, fold_total. f_equal. }
  split; [exact Hd|]. split.
  - intros Hr. rewrite Hd. apply wrap64_in_range. exact Hr.
  - intros PD At H10 H1 H2.
    exists Samples.two_zones.
    split; [|split; reflexivity].
    unfold program_Set.
    change (Split "1:10s,2:10s" ",") with ["1:10s"%string; "2:10s"%string].
    cbn [program_Set_loop].
    unfold event_Set.
    change (Split "1:10s" ":") with ["1"%string; "10s"%string].
    change (Split "2:10s" ":") with ["2"%string; "10s"%string].
    cbn [length Nat.eqb negb nth].
    rewrite H10. cbn match. 
    change (10 * Second <? offTime) with false. cbn match.
    rewrite H1, H2. reflexivity.
Qed.

Lemma duration_formula_witness :
  duration Samples.two_zones 50
  = sum_scaled Samples.two_zones 50
    + Z.of_nat (length Samples.two_zones) * offTime /\
  exists q,
    program_Set TestDouble.ParseDuration TestDouble.Atoi [] "1:10s,2:10s"
    = (q, None) /\
    offTime = 3 * Second /\
    duration q 100 = 26 * Second.
Proof.
  split.
  - apply (proj1 (proj2 (duration_formula Samples.two_zones 50))).
    vm_compute. split; discriminate.
  - apply (proj2 (proj2 (duration_formula [] 0))
             TestDouble.ParseDuration TestDouble.Atoi); reflexivity.
Defined.

(** ** Parsing *)

Section ParsingFacts.
Variable ParseDuration : string -> Z * option error.
Variable Atoi : string -> Z * option error.

Local Abbreviation event_Set := (event_Set ParseDuration Atoi).
Local Abbreviation program_Set_loop := (program_Set_loop ParseDuration Atoi).

Lemma event_Set_two_fields e s a b :
  Split s ":" = [a; b] ->
  event_Set e s =
  match ParseDuration b with
  | (_, Some c) => (e, Some (InvalidDuration b c))
  | (d, None) =>
      if d <? offTime then (e, Some (DurationTooShort d offTime))
      else match Atoi a with
           | (_, Some c) => (e, Some (InvalidId a c))
           | (n, None) =>
               if n <? 0 then (e, Some (NegativeId a))
               else (mkEvent n d, None)
           end
  end.
Proof.
  intros Hs. unfold Sprinkler.event_Set. rewrite Hs.
  cbn [length Nat.eqb negb nth].
  destruct (ParseDuration b) as [d [c|]]; [reflexivity|].
  destruct (d <? offTime); [reflexivity|].
  destruct (Atoi a) as [n [c|]]; reflexivity.
Qed.

(** On failure the receiver is left as it was. *)
Lemma event_Set_error_keeps e s e' x :
  event_Set e s = (e', Some x) -> e' = e.
Proof.
  unfold Sprinkler.event_Set.
  destruct (negb _); [intros H; inversion H; reflexivity|].
  destruct (ParseDuration _) as [d [c|]]; [intros H; inversion H; reflexivity|].
  destruct (d <? offTime); [intros H; inversion H; reflexivity|].
  destruct (Atoi _) as [n [c|]]; [intros H; inversion H; reflexivity|].
  destruct (n <? 0); intros H; inversion H; reflexivity.
Qed.

(** The loop of [program.Set] appends the events of the fields that
    parse and stops at the first field that does not. *)
Lemma program_Set_loop_prefix parsed : forall p events bad rest e' x,
  Forall2 (fun v e => event_Set (mkEvent 0 0) v = (e, None)) parsed events ->
  event_Set (mkEvent 0 0) bad = (e', Some x) ->
  program_Set_loop p (parsed ++ bad :: rest) = (p ++ events, Some x).
Proof.
  induction parsed as [|v vs IH]; intros p events bad rest e' x Hall Hbad.
  - inversion Hall. subst. cbn. rewrite Hbad, app_nil_r. reflexivity.
  - inversion Hall as [|v0 e0 vs0 es0 Hv Hvs]. subst.
    cbn [app Sprinkler.program_Set_loop]. rewrite Hv.
    rewrite (IH (p ++ [e0]) es0 bad rest e' x Hvs Hbad).
    rewrite <- app_assoc. reflexivity.
Qed.

Lemma program_Set_loop_all fields : forall p events,
  Forall2 (fun v e => event_Set (mkEvent 0 0) v = (e, None)) fields events ->
  program_Set_loop p fields = (p ++ events, None).
Proof.
  induction fields as [|v vs IH]; intros p events Hall.
  - inversion Hall. cbn. rewrite app_nil_r. reflexivity.
  - inversion Hall as [|v0 e0 vs0 es0 Hv Hvs]. subst.
    cbn [Sprinkler.program_Set_loop]. rewrite Hv.
    rewrite (IH (p ++ [e0]) es0 Hvs), <- app_assoc. reflexivity.
Qed.

End ParsingFacts.

(** C6.  [event.Set] splits its input on ":" and wants exactly two fields.
    It returns an error that carries the offending text when the number of
    fields is not two (the whole input), when the duration does not parse
    (the duration field), when the duration is below the settling delay
    (the duration), and when the id does not parse or is negative (the id
    field); in each case the receiver is unchanged.  Otherwise the event
    holds the parsed id and duration.  "1:1s" is rejected under the 3
    second delay. *)
Theorem event_Set_spec
    (ParseDuration Atoi : string -> Z * option error) (e : event) (s : string) :
  (length (Split s ":") <> 2%nat ->
     event_Set ParseDuration Atoi e s = (e, Some (InvalidEvent s))) /\
  (forall a b d c,
     Split s ":" = [a; b] -> ParseDuration b = (d, Some c) ->
     event_Set ParseDuration Atoi e s = (e, Some (InvalidDuration b c))) /\
  (forall a b d,
     Split s ":" = [a; b] -> ParseDuration b = (d, None) -> d < offTime ->
     event_Set ParseDuration Atoi e s = (e, Some (DurationTooShort d offTime))) /\
  (forall a b d n c,
     Split s ":" = [a; b] -> ParseDuration b = (d, None) -> offTime <= d ->
     Atoi a = (n, Some c) ->
     event_Set ParseDuration Atoi e s = (e, Some (InvalidId a c))) /\
  (forall a b d n,
     Split s ":" = [a; b] -> ParseDuration b = (d, None) -> offTime <= d ->
     Atoi a = (n, None) -> n < 0 ->
     event_Set ParseDuration Atoi e s = (e, Some (NegativeId a))) /\
  (forall a b d n,
     Split s ":" = [a; b] -> ParseDuration b = (d, None) -> offTime <= d ->
     Atoi a = (n, None) -> 0 <= n ->
     event_Set ParseDuration Atoi e s = (mkEvent n d, None)) /\
  (ParseDuration "1s"%string = (1 * Second, None) ->
     offTime = 3 * Second /\
     event_Set ParseDuration Atoi e "1:1s"
     = (e, Some (DurationTooShort (1 * Second) offTime))).
Proof.
  split; [|split; [|split; [|split; [|split; [|split]]]]].
  - intros Hlen. unfold event_Set.
    destruct (Nat.eqb_spec (length (Split s ":")) 2) as [Heq|Hne]; [contradiction|].
    reflexivity.
  - intros a b d c Hs Hd. rewrite (event_Set_two_fields _ _ e s a b Hs), Hd.
    reflexivity.
  - intros a b d Hs Hd Hlt. rewrite (event_Set_two_fields _ _ e s a b Hs), Hd.
    apply Z.ltb_lt in Hlt. rewrite Hlt. reflexivity.
  - intros a b d n c Hs Hd Hge Ha.
    rewrite (event_Set_two_fields _ _ e s a b Hs), Hd, Ha.
    apply Z.ltb_ge in Hge. rewrite Hge. reflexivity.
  - intros a b d n Hs Hd Hge Ha Hn.
    rewrite (event_Set_two_fields _ _ e s a b Hs), Hd, Ha.
    apply Z.ltb_ge in Hge. rewrite Hge.
    apply Z.ltb_lt in Hn. rewrite Hn. reflexivity.
  - intros a b d n Hs Hd Hge Ha Hn.
    rewrite (event_Set_two_fields _ _ e s a b Hs), Hd, Ha.
    apply Z.ltb_ge in Hge. rewrite Hge.
    apply Z.ltb_ge in Hn. rewrite Hn. reflexivity.
  - intros H1.
    rewrite (event_Set_two_fields _ _ e "1:1s" "1" "1s" eq_refl), H1.
    split; reflexivity.
Qed.

Lemma event_Set_spec_witness :
  event_Set TestDouble.ParseDuration TestDouble.Atoi (mkEvent 0 0) "1:2:3"
  = (mkEvent 0 0, Some (InvalidEvent "1:2:3")) /\
  event_Set TestDouble.ParseDuration TestDouble.Atoi (mkEvent 0 0) "1:soon"
  = (mkEvent 0 0, Some (InvalidDuration "soon"
                          (External "time: invalid duration"))) /\
  event_Set TestDouble.ParseDuration TestDouble.Atoi (mkEvent 0 0) "x:5s"
  = (mkEvent 0 0, Some (InvalidId "x" (External "strconv.Atoi: invalid syntax"))) /\
  event_Set TestDouble.ParseDuration TestDouble.Atoi (mkEvent 0 0) "-4:5s"
  = (mkEvent 0 0, Some (NegativeId "-4")) /\
  event_Set TestDouble.ParseDuration TestDouble.Atoi (mkEvent 0 0) "4:5m"
  = (mkEvent 4 (300 * Second), None) /\
  event_Set TestDouble.ParseDuration TestDouble.Atoi (mkEvent 0 0) "1:1s"
  = (mkEvent 0 0, Some (DurationTooShort (1 * Second) offTime)).
Proof.
  pose (PD := TestDouble.ParseDuration). pose (At := TestDouble.Atoi).
  pose (e0 := mkEvent 0 0).
  split; [|split; [|split; [|split; [|split]]]].
  - apply (proj1 (event_Set_spec PD At e0 "1:2:3")). cbn. lia.
  - apply (proj1 (proj2 (event_Set_spec PD At e0 "1:soon")) "1"%string _ 0);
      reflexivity.
  - apply (proj1 (proj2 (proj2 (proj2 (event_Set_spec PD At e0 "x:5s"))))
             _ "5s"%string (5 * Second) 0); try reflexivity.
    vm_compute. discriminate.
  - apply (proj1 (proj2 (proj2 (proj2 (proj2 (event_Set_spec PD At e0 "-4:5s")))))
             _ "5s"%string (5 * Second) (-4)); try reflexivity.
    vm_compute. discriminate.
  - apply (proj1 (proj2 (proj2 (proj2 (proj2 (proj2
             (event_Set_spec PD At e0 "4:5m"))))))
             "4"%string "5m"%string (300 * Second) 4); try reflexivity.
    + vm_compute. discriminate.
    + lia.
  - apply (proj2 (proj2 (proj2 (proj2 (proj2 (proj2
             (event_Set_spec PD At e0 "any"))))))). reflexivity.
Defined.

(** C9.  [program.Set] is not atomic.  When the fields before the one that
    fails have parsed to [events], the program returned next to the error
    is the receiver extended by [events]: the prefix stays appended, and
    as soon as one field parsed the program differs from what it was. *)
Theorem program_Set_keeps_prefix
    (ParseDuration Atoi : string -> Z * option error)
    (p : program) (s : string)
    (parsed : list string) (events : list event)
    (bad : string) (rest : list string) (e' : event) (x : error) :
  Split s "," = parsed ++ bad :: rest ->
  Forall2 (fun v e => event_Set ParseDuration Atoi (mkEvent 0 0) v = (e, None))
          parsed events ->
  event_Set ParseDuration Atoi (mkEvent 0 0) bad = (e', Some x) ->
  program_Set ParseDuration Atoi p s = (p ++ events, Some x) /\
  length events = length parsed /\
  (parsed <> [] -> fst (program_Set ParseDuration Atoi p s) <> p).
Proof.
  intros Hs Hall Hbad.
  assert (Hres : program_Set ParseDuration Atoi p s = (p ++ events, Some x)).
  { unfold program_Set. rewrite Hs.
    exact (program_Set_loop_prefix _ _ parsed p events bad rest e' x Hall Hbad). }
  assert (Hlen : length events = length parsed).
  { symmetry. exact (Forall2_length Hall). }
  split; [exact Hres|]. split; [exact Hlen|].
  intros Hne. rewrite Hres. cbn [fst]. intros Heq.
  assert (Hl : length (p ++ events) = length p) by (rewrite Heq; reflexivity).
  rewrite length_app in Hl.
  destruct parsed as [|v vs]; [congruence|]. cbn in Hlen. lia.
Qed.

Lemma program_Set_keeps_prefix_witness :
  program_Set TestDouble.ParseDuration TestDouble.Atoi [] "1:10s,2:1s,3:10s"
  = ([mkEvent 1 (10 * Second)],
     Some (DurationTooShort (1 * Second) offTime)).
Proof.
  apply (program_Set_keeps_prefix TestDouble.ParseDuration TestDouble.Atoi
           [] "1:10s,2:1s,3:10s"
           ["1:10s"%string] [mkEvent 1 (10 * Second)]
           "2:1s" ["3:10s"%string] (mkEvent 0 0)).
  - reflexivity.
  - constructor; [reflexivity | constructor].
  - reflexivity.
Defined.

(** ** Masks *)

Section Masks.


Lemma shl64_beyond k : 64 <= k -> shl64 1 k = 0.
Proof.
  intros Hk. unfold shl64, intSize.
  destruct (Z.ltb_spec k 64); [lia | reflexivity].
Qed.


Lemma event_mask_shift e : 0 < id e -> event_mask e = shl64 1 (id e - 1).
Proof.
  intros H. unfold event_mask.
  destruct (Z.gtb_spec (id e) 0); [reflexivity | lia].
Qed.


(** From zone 9 on, no bit of the mask reaches the wire. *)
Lemma event_mask_high_wire n d : 9 <= n -> relay2ic (event_mask (mkEvent n d)) = 0.
Proof.
  intros Hn. rewrite event_mask_shift by (cbn; lia). cbn [id].
  destruct (Z.lt_ge_cases (n - 1) 64) as [Hlt|Hge].
  - pose proof (forall_below
      (fun k => (k <? 8) || (relay2ic (shl64 1 k) =? 0)) 64 eq_refl (n - 1)) as H.
    cbv beta in H. specialize (H ltac:(lia)).
    apply orb_true_iff in H. destruct H as [H|H].
    + apply Z.ltb_lt in H. lia.
    + apply Z.eqb_eq in H. exact H.
  - rewrite (shl64_beyond _ Hge). reflexivity.
Qed.



End Masks.



(** C10.  [event.Set] puts no upper bound on the zone id: whatever
    non-negative id the integer parser returns is accepted.  For every id
    from 9 on, the mask [1 << (id-1)] has none of the bits 0 to 7, so
    [relay2ic] maps it to 0 and the on-write of the event is the all-off
    command [0x01, 0x00]. *)
Theorem zone_id_unbounded
    (ParseDuration Atoi : string -> Z * option error) (dev : Device)
    (e0 : event) (s a b : string) (n d : Z) (r : Relay) (pct : Z) (w : log) :
  (Split s ":" = [a; b] -> ParseDuration b = (d, None) -> offTime <= d ->
   Atoi a = (n, None) -> 0 <= n ->
     event_Set ParseDuration Atoi e0 s = (mkEvent n d, None)) /\
  (9 <= n ->
     (forall i, (i < 8)%nat -> Z.testbit (event_mask (mkEvent n d)) (Z.of_nat i) = false) /\
     relay2ic (event_mask (mkEvent n d)) = 0 /\
     snd (Set_ dev r (event_mask (mkEvent n d)) w)
     = Sys (SysWrite (file r) [writeAddress; 0])
       :: CallSet (event_mask (mkEvent n d)) :: w /\
     exists new,
       writes (snd (event_run dev (mkEvent n d) r pct w)) = new ++ writes w /\
       new <> [] /\ Forall (eq [writeAddress; 0]) new).
Proof.
  split.
  - intros Hs Hd Hge Ha Hn.
    rewrite (event_Set_two_fields _ _ e0 s a b Hs), Hd, Ha.
    apply Z.ltb_ge in Hge. rewrite Hge.
    apply Z.ltb_ge in Hn. rewrite Hn. reflexivity.
  - intros Hn.
    pose proof (event_mask_high_wire n d Hn) as Hwire.
    split; [|split; [exact Hwire|split]].
    + intros i Hi.
      rewrite event_mask_shift by (cbn; lia). cbn [id].
      destruct (Z.lt_ge_cases (n - 1) 64) as [Hlt|Hge].
      * pose proof (forall_below
          (fun k => (k <? 8)
                    || forallb (fun i => negb (Z.testbit (shl64 1 k) (Z.of_nat i)))
                         (seq 0 8)) 64 eq_refl (n - 1)) as H.
        cbv beta in H. specialize (H ltac:(lia)).
        apply orb_true_iff in H. destruct H as [H|H].
        -- apply Z.ltb_lt in H. lia.
        -- rewrite forallb_forall in H.
           apply negb_true_iff. apply H. apply in_seq. lia.
      * rewrite (shl64_beyond _ Hge). apply Z.bits_0.
    + rewrite Set_log, Hwire. reflexivity.
    + destruct (event_run dev (mkEvent n d) r pct w) as [[x|] w1] eqn:E.
      * apply event_run_err_log in E. subst w1. rewrite Hwire.
        exists [[writeAddress; 0]]. split; [reflexivity|].
        split; [discriminate|]. constructor; [reflexivity | constructor].
      * apply event_run_ok_log in E. subst w1. rewrite Hwire.
        exists [[writeAddress; 0]; [writeAddress; 0]]. split; [reflexivity|].
        split; [discriminate|].
        constructor; [reflexivity|]. constructor; [reflexivity | constructor].
Qed.

Lemma zone_id_unbounded_witness :
  event_Set TestDouble.ParseDuration TestDouble.Atoi (mkEvent 0 0) "12:10s"
  = (mkEvent 12 (10 * Second), None) /\
  relay2ic (event_mask (mkEvent 12 (10 * Second))) = 0.
Proof.
  pose proof (zone_id_unbounded TestDouble.ParseDuration TestDouble.Atoi
                Samples.healthy (mkEvent 0 0) "12:10s" "12" "10s"
                12 (10 * Second) Samples.relay1 100 []) as [Hacc Hwire].
  split.
  - apply Hacc; try reflexivity; vm_compute; discriminate.
  - apply Hwire. lia.
Defined.

(** ** Preflight *)

Section Preflight.
Variable dev : Device.

Lemma Get_log r w : snd (Get dev r w) = Sys (SysRead (file r) 2) :: w.
Proof.
  unfold Get. cbv [bind sys ret].
  destruct (rep_err _); [reflexivity|].
  destruct (negb _); reflexivity.
Qed.

(** A successful [NewRelay] has opened the bus and selected the board,
    nothing else. *)
Lemma NewRelay_ok_log bus brd w r w1 :
  NewRelay dev bus brd w = ((Some r, None), w1) ->
  1 <= brd <= 8 /\ board r = brd /\
  w1 = Sys (SysIoctl (file r) slaveAddress (baseAddress - Z.land (brd - 1) 7))
       :: Sys (SysOpen bus) :: w.
Proof.
  unfold NewRelay.
  destruct (Z.ltb_spec brd 1) as [H1|H1]; [discriminate|].
  destruct (Z.gtb_spec brd 8) as [H8|H8]; [discriminate|].
  cbn [orb]. unfold Board. cbv [bind sys ret].
  destruct (rep_err (dev w (SysOpen bus))); [discriminate|].
  cbn [file].
  destruct (rep_err _); cbn [fst snd]; [discriminate|].
  intros H. inversion H. subst. cbn [file board].
  split; [lia|]. split; reflexivity.
Qed.

End Preflight.

(** C8.  [main] reads the relay state with [Get] before anything is run.
    When the board was opened and [Get] returns a nonzero mask, [main]
    prints the relays-in-use line and returns: the log of the whole
    execution holds the open, the board selection, the read and that line,
    so no write reached the device, [Set] was never called and the signal
    goroutine was never started. *)
Theorem preflight_refuses_when_active (dev : Device) (prog : program)
    (brd bus pct : Z) (r : Relay) (w1 w2 : log) (i : Z) :
  prog <> [] ->
  NewRelay dev bus brd [] = ((Some r, None), w1) ->
  Get dev r w1 = ((i, None), w2) ->
  i <> 0 ->
  snd (main dev prog brd bus pct false [])
  = [Stderr (MsgInUse i);
     Sys (SysRead (file r) 2);
     Sys (SysIoctl (file r) slaveAddress (baseAddress - Z.land (brd - 1) 7));
     Sys (SysOpen bus)] /\
  writes (snd (main dev prog brd bus pct false [])) = [] /\
  set_calls (snd (main dev prog brd bus pct false [])) = [] /\
  ~ In Notify (snd (main dev prog brd bus pct false [])).
Proof.
  intros Hne Hnew Hget Hi.
  assert (Hmain : snd (main dev prog brd bus pct false [])
                  = Stderr (MsgInUse i) :: w2).
  { unfold main.
    destruct prog as [|e rest]; [congruence|].
    replace (Z.of_nat (length (e :: rest)) <? 1) with false
      by (symmetry; apply Z.ltb_ge; cbn [length]; lia).
    unfold bind at 1. rewrite Hnew.
    unfold bind at 1. rewrite Hget.
    apply Z.eqb_neq in Hi. rewrite Hi. reflexivity. }
  pose proof (Get_log dev r w1) as Hg. rewrite Hget in Hg. cbn [snd] in Hg.
  destruct (NewRelay_ok_log dev bus brd [] r w1 Hnew) as [_ [_ Hw1]].
  rewrite Hmain, Hg, Hw1.
  split; [reflexivity|]. split; [reflexivity|]. split; [reflexivity|].
  cbn. intros [H|[H|[H|[H|H]]]]; try discriminate; exact H.
Qed.

Lemma preflight_refuses_when_active_witness :
  snd (main Samples.active Samples.two_zones 1 1 100 false [])
  = [Stderr (MsgInUse 2); Sys (SysRead 3 2); Sys (SysIoctl 3 0x0703 0x27);
     Sys (SysOpen 1)] /\
  writes (snd (main Samples.active Samples.two_zones 1 1 100 false [])) = [].
Proof.
  pose proof (preflight_refuses_when_active Samples.active Samples.two_zones
                1 1 100 Samples.relay1
                [Sys (SysIoctl 3 0x0703 0x27); Sys (SysOpen 1)]
                [Sys (SysRead 3 2); Sys (SysIoctl 3 0x0703 0x27); Sys (SysOpen 1)]
                2) as H.
  destruct H as [H1 [H2 _]]; try reflexivity; try discriminate.
  split; [exact H1 | exact H2].
Defined.

(** * Further properties *)

Import SprinklerText Shapes.

(** ** The inverse table and the bit permutation *)

Section InverseTable.

Lemma slice_set_length l : forall i v, length (slice_set l i v) = length l.
Proof.
  induction l as [|h t IH]; intros [|j] v; cbn; try reflexivity.
  rewrite IH. reflexivity.
Qed.

Lemma nth_slice_set_same l : forall i v,
  (i < length l)%nat -> nth i (slice_set l i v) 0 = v.
Proof.
  induction l as [|h t IH]; intros [|j] v Hi; cbn in *; try lia.
  apply IH. lia.
Qed.

Lemma nth_slice_set_other l : forall i j v,
  i <> j -> nth j (slice_set l i v) 0 = nth j l 0.
Proof.
  induction l as [|h t IH]; intros [|i] [|j] v Hij; cbn; try reflexivity;
    try congruence.
  apply IH. congruence.
Qed.

Lemma init_loop_length tbl : forall i acc,
  length (init_loop tbl i acc) = length acc.
Proof.
  induction tbl as [|v rest IH]; intros i acc; cbn; [reflexivity|].
  rewrite IH. apply slice_set_length.
Qed.

(** The loop leaves alone every slot that is not an entry of the table. *)
Lemma init_loop_untouched tbl : forall i acc j,
  ~ In j (map Z.to_nat tbl) ->
  nth j (init_loop tbl i acc) 0 = nth j acc 0.
Proof.
  induction tbl as [|v rest IH]; intros i acc j Hj; cbn; [reflexivity|].
  cbn in Hj. rewrite IH by tauto.
  apply nth_slice_set_other. tauto.
Qed.

Lemma init_loop_inverse tbl : forall i acc k,
  NoDup (map Z.to_nat tbl) ->
  (forall v, In v tbl -> (Z.to_nat v < length acc)%nat) ->
  (k < length tbl)%nat ->
  nth (Z.to_nat (nth k tbl 0)) (init_loop tbl i acc) 0 = to_byte (i + Z.of_nat k).
Proof.
  induction tbl as [|v rest IH]; intros i acc k Hnd Hin Hk; cbn in Hk; [lia|].
  cbn [map] in Hnd. inversion Hnd as [|x xs Hnotin Hnd']. subst.
  cbn [init_loop]. destruct k as [|k'].
  - cbn [nth]. rewrite init_loop_untouched by assumption.
    rewrite nth_slice_set_same by (apply Hin; left; reflexivity).
    f_equal. lia.
  - cbn [nth]. rewrite IH.
    + f_equal. lia.
    + assumption.
    + intros u Hu. rewrite slice_set_length. apply Hin. right. assumption.
    + lia.
Qed.

End InverseTable.

(** X1.  [init] inverts any table: when the entries of a table of at most
    256 elements are distinct and are valid indices into it, the table that
    the loop of [init] builds sends each entry back to its position. *)
Theorem init_builds_inverse (tbl : list Z) (k : nat) :
  NoDup (map Z.to_nat tbl) ->
  (forall v, In v tbl -> 0 <= v < Z.of_nat (length tbl)) ->
  (length tbl <= 256)%nat ->
  (k < length tbl)%nat ->
  nth (Z.to_nat (nth k tbl 0)) (init_loop tbl 0 (repeat 0 (length tbl))) 0
  = Z.of_nat k.
Proof.
  intros Hnd Hrange Hlen Hk.
  rewrite init_loop_inverse; try assumption.
  - unfold to_byte. rewrite Z.add_0_l. apply Z.mod_small. lia.
  - intros v Hv. rewrite repeat_length. specialize (Hrange v Hv). lia.
Qed.

Lemma init_builds_inverse_witness :
  nth (Z.to_nat (nth 4 relay2Addr 0)) addr2Relay 0 = 4.
Proof.
  apply (init_builds_inverse relay2Addr 4).
  - cbn. repeat (constructor; [cbn; lia|]). constructor.
  - cbn. intros v Hv. lia.
  - cbn. lia.
  - cbn. lia.
Defined.

(** ** The bit permutation on every [int] *)

Section BitPermutation.

Lemma mod256_land x : x mod 256 = Z.land x (Z.ones 8).
Proof. rewrite Z.land_ones by lia. reflexivity. Qed.

Lemma lor_mod256 a b : Z.lor a b mod 256 = Z.lor (a mod 256) (b mod 256).
Proof. rewrite !mod256_land. apply Z.land_lor_distr_l. Qed.

Lemma ic2relay_low8 x : ic2relay x = ic2relay (x mod 256).
Proof. unfold ic2relay. apply map_bits_low8; simpl; lia.
Qed.

Lemma mod256_range x : 0 <= x mod 256 <= 255.
Proof. pose proof (Z.mod_pos_bound x 256). lia. Qed.

(** The facts below are checked on the 256 byte values. *)
Lemma byte_facts m :
  0 <= m <= 255 ->
  ic2relay (relay2ic m) = m /\
  relay2ic (ic2relay m) = m /\
  popcount64 (relay2ic m) = popcount64 m /\
  (relay2ic m = 0 -> m = 0).
Proof.
  intros Hm.
  pose proof (forall_byte
    (fun m => (ic2relay (relay2ic m) =? m) && (relay2ic (ic2relay m) =? m)
              && Nat.eqb (popcount64 (relay2ic m)) (popcount64 m)
              && ((m =? 0) || negb (relay2ic m =? 0)))) as H.
  assert (Hall : forallb
    (fun m => (ic2relay (relay2ic m) =? m) && (relay2ic (ic2relay m) =? m)
              && Nat.eqb (popcount64 (relay2ic m)) (popcount64 m)
              && ((m =? 0) || negb (relay2ic m =? 0)))
    (map Z.of_nat (seq 0 256)) = true) by (vm_compute; reflexivity).
  specialize (H Hall m Hm). cbv beta in H.
  apply andb_true_iff in H. destruct H as [H H4].
  apply andb_true_iff in H. destruct H as [H H3].
  apply andb_true_iff in H. destruct H as [H1 H2].
  apply Z.eqb_eq in H1. apply Z.eqb_eq in H2. apply Nat.eqb_eq in H3.
  split; [exact H1|]. split; [exact H2|]. split; [exact H3|].
  intros H0. apply orb_true_iff in H4. destruct H4 as [H4|H4].
  - apply Z.eqb_eq. exact H4.
  - apply negb_true_iff, Z.eqb_neq in H4. contradiction.
Qed.

Lemma lor_bytes a b :
  0 <= a <= 255 -> 0 <= b <= 255 ->
  relay2ic (Z.lor a b) = Z.lor (relay2ic a) (relay2ic b).
Proof.
  intros Ha Hb.
  assert (Hall : forallb
    (fun a => forallb
       (fun b => relay2ic (Z.lor a b) =? Z.lor (relay2ic a) (relay2ic b))
       (map Z.of_nat (seq 0 256)))
    (map Z.of_nat (seq 0 256)) = true) by (vm_compute; reflexivity).
  pose proof (forall_byte _ Hall a Ha) as H1. cbv beta in H1.
  pose proof (forall_byte _ H1 b Hb) as H2. cbv beta in H2.
  apply Z.eqb_eq. assumption.
Qed.

End BitPermutation.

(** X2.  Only the low byte of the mask reaches the board, and reading back
    what was written recovers exactly that byte: for every [int] [x],
    [relay2ic x] is the image of [x mod 256], lies in [0,255], and
    [ic2relay (relay2ic x) = x mod 256].  A mask such as 256 is thus
    all-off and -1 is all-on. *)
Theorem mapping_uses_low_byte (x : Z) :
  relay2ic x = relay2ic (x mod 256) /\
  0 <= relay2ic x <= 255 /\
  ic2relay (relay2ic x) = x mod 256 /\
  (relay2ic x = 0 <-> x mod 256 = 0) /\
  relay2ic 256 = 0 /\ relay2ic (-1) = 255.
Proof.
  pose proof (mod256_range x) as Hr.
  destruct (byte_facts (x mod 256) Hr) as [H1 [_ [_ H4]]].
  split; [apply relay2ic_low8|].
  split; [apply relay2ic_range|].
  split; [rewrite relay2ic_low8; exact H1|].
  split; [|split; reflexivity].
  rewrite relay2ic_low8. split; [exact H4|].
  intros ->. reflexivity.
Qed.

(** X3.  The mapping is a permutation of the eight relay bits: it sends
    the union of two masks to the union of their images and keeps the
    number of energized relays. *)
Theorem relay2ic_permutes_bits (a b : Z) :
  relay2ic (Z.lor a b) = Z.lor (relay2ic a) (relay2ic b) /\
  popcount64 (relay2ic a) = popcount64 (a mod 256).
Proof.
  split.
  - rewrite (relay2ic_low8 (Z.lor a b)), lor_mod256.
    rewrite (relay2ic_low8 a), (relay2ic_low8 b).
    apply lor_bytes; apply mod256_range.
  - rewrite relay2ic_low8.
    apply (byte_facts (a mod 256) (mod256_range a)).
Qed.

(** X4.  Each zone 1 to 8 drives one wire bit, the one [relay2Addr]
    gives for it: the byte written for zone [z] is
    [1 << relay2Addr[z-1]], and two different zones never share it. *)
Theorem zone_wire_bit (z z' : Z) (d d' : Z) :
  1 <= z <= 8 -> 1 <= z' <= 8 ->
  relay2ic (event_mask (mkEvent z d))
  = Z.shiftl 1 (nth (Z.to_nat (z - 1)) relay2Addr 0) /\
  (relay2ic (event_mask (mkEvent z d)) = relay2ic (event_mask (mkEvent z' d'))
   -> z = z').
Proof.
  intros Hz Hz'.
  assert (Hall : forallb
    (fun k => (relay2ic (shl64 1 k) =? Z.shiftl 1 (nth (Z.to_nat k) relay2Addr 0))
              && forallb
                   (fun k' => negb (relay2ic (shl64 1 k) =? relay2ic (shl64 1 k'))
                              || (k =? k'))
                   (map Z.of_nat (seq 0 8)))
    (map Z.of_nat (seq 0 8)) = true) by (vm_compute; reflexivity).
  pose proof (forall_below _ 8 Hall (z - 1) ltac:(lia)) as H. cbv beta in H.
  apply andb_true_iff in H. destruct H as [H1 H2].
  rewrite !event_mask_shift by (cbn; lia). cbn [id].
  split; [apply Z.eqb_eq; exact H1|].
  intros Heq.
  pose proof (forall_below _ 8 H2 (z' - 1) ltac:(lia)) as H3. cbv beta in H3.
  apply orb_true_iff in H3. destruct H3 as [H3|H3].
  - apply negb_true_iff, Z.eqb_neq in H3. contradiction.
  - apply Z.eqb_eq in H3. lia.
Qed.

Lemma zone_wire_bit_witness :
  relay2ic (event_mask (mkEvent 5 (10 * Second))) = Z.shiftl 1 6.
Proof.
  apply (zone_wire_bit 5 5 (10 * Second) 0); lia.
Defined.

(** ** Opening, selecting, writing and reading back *)

Section TransportFacts.
Variable dev : Device.

Lemma land7_mod8 n : Z.land (n - 1) 7 = (n - 1) mod 8.
Proof. change 7 with (Z.ones 3). rewrite Z.land_ones by lia. reflexivity. Qed.

Lemma Board_run r n w :
  Board dev r n w =
  match rep_err (dev w (SysIoctl (file r) slaveAddress
                          (baseAddress - Z.land (n - 1) 7))) with
  | Some e =>
      ((mkRelay (file r) 0,
        Some (CantSetSlave slaveAddress (baseAddress - Z.land (n - 1) 7) e)),
       Sys (SysIoctl (file r) slaveAddress (baseAddress - Z.land (n - 1) 7)) :: w)
  | None =>
      ((mkRelay (file r) n, None),
       Sys (SysIoctl (file r) slaveAddress (baseAddress - Z.land (n - 1) 7)) :: w)
  end.
Proof.
  unfold Board. cbv [bind sys ret]. cbn [file].
  destruct (rep_err _); reflexivity.
Qed.

Lemma NewRelay_run bus brd w :
  1 <= brd <= 8 ->
  NewRelay dev bus brd w =
  match rep_err (dev w (SysOpen bus)) with
  | Some e => ((None, Some (CantOpenBus bus e)), Sys (SysOpen bus) :: w)
  | None =>
      let r := mkRelay (rep_n (dev w (SysOpen bus))) 0 in
      let res := Board dev r brd (Sys (SysOpen bus) :: w) in
      ((Some (fst (fst res)), snd (fst res)), snd res)
  end.
Proof.
  intros Hb. unfold NewRelay.
  destruct (Z.ltb_spec brd 1); [lia|].
  destruct (Z.gtb_spec brd 8); [lia|].
  cbn [orb]. cbv [bind sys ret].
  destruct (rep_err (dev w (SysOpen bus))); [reflexivity|].
  cbv zeta. destruct (Board dev _ brd _) as [[r1 e1] w1]. reflexivity.
Qed.

Lemma Set_result r state w :
  fst (Set_ dev r state w) =
  match rep_err (dev (CallSet state :: w)
                   (SysWrite (file r) [writeAddress; relay2ic state])) with
  | Some e => Some (SetError e)
  | None =>
      if rep_n (dev (CallSet state :: w)
                  (SysWrite (file r) [writeAddress; relay2ic state])) =? 2
      then None
      else Some (ShortWrite
                   (rep_n (dev (CallSet state :: w)
                             (SysWrite (file r) [writeAddress; relay2ic state]))) 2)
  end.
Proof.
  unfold Set_. cbv [bind sys ret emit].
  destruct (rep_err _); [reflexivity|].
  change (Z.of_nat (length [writeAddress; relay2ic state])) with 2.
  destruct (_ =? 2); reflexivity.
Qed.

End TransportFacts.

(** X5.  [NewRelay] refuses a board number outside 1 to 8 before it touches
    the device: no relay is returned and the log is unchanged. *)
Theorem NewRelay_invalid_board (dev : Device) (bus brd : Z) (w : log) :
  brd < 1 \/ 8 < brd ->
  NewRelay dev bus brd w = ((None, Some InvalidBoard), w).
Proof.
  intros H. unfold NewRelay.
  destruct (Z.ltb_spec brd 1) as [H1|H1]; [reflexivity|].
  destruct (Z.gtb_spec brd 8) as [H8|H8]; [reflexivity | lia].
Qed.

Lemma NewRelay_invalid_board_witness :
  NewRelay Samples.healthy 1 9 [] = ((None, Some InvalidBoard), []).
Proof. apply NewRelay_invalid_board. lia. Defined.

(** X6.  When the bus device cannot be opened, [NewRelay] returns no relay
    and the open error wrapped with the bus number, and never attempts the
    board selection. *)
Theorem NewRelay_open_failure (dev : Device) (bus brd : Z) (w : log) (e : error) :
  1 <= brd <= 8 ->
  rep_err (dev w (SysOpen bus)) = Some e ->
  NewRelay dev bus brd w
  = ((None, Some (CantOpenBus bus e)), [Sys (SysOpen bus)] ++ w).
Proof.
  intros Hb He. rewrite NewRelay_run by assumption. rewrite He. reflexivity.
Qed.

Lemma NewRelay_open_failure_witness :
  NewRelay no_bus 1 1 []
  = ((None, Some (CantOpenBus 1 (External "no such file or directory"))),
     [Sys (SysOpen 1)]).
Proof. apply (NewRelay_open_failure no_bus 1 1 []); [lia | reflexivity]. Defined.

(** X7.  When the bus opens with descriptor [fd], the board selection of
    [NewRelay] is one ioctl with address [0x28 - board].  If it fails, the
    relay is returned all the same, with the open descriptor and board 0,
    next to the error, so the caller can still close it; if it succeeds the
    relay records the board. *)
Theorem NewRelay_after_open (dev : Device) (bus brd : Z) (w : log) :
  1 <= brd <= 8 ->
  rep_err (dev w (SysOpen bus)) = None ->
  snd (NewRelay dev bus brd w)
  = [Sys (SysIoctl (rep_n (dev w (SysOpen bus))) slaveAddress (0x28 - brd));
     Sys (SysOpen bus)] ++ w /\
  (forall e,
     rep_err (dev (Sys (SysOpen bus) :: w)
                (SysIoctl (rep_n (dev w (SysOpen bus))) slaveAddress (0x28 - brd)))
     = Some e ->
     fst (NewRelay dev bus brd w)
     = (Some (mkRelay (rep_n (dev w (SysOpen bus))) 0),
        Some (CantSetSlave slaveAddress (0x28 - brd) e))) /\
  (rep_err (dev (Sys (SysOpen bus) :: w)
              (SysIoctl (rep_n (dev w (SysOpen bus))) slaveAddress (0x28 - brd)))
   = None ->
     fst (NewRelay dev bus brd w)
     = (Some (mkRelay (rep_n (dev w (SysOpen bus))) brd), None)).
Proof.
  intros Hb Ho.
  assert (Ha : baseAddress - Z.land (brd - 1) 7 = 0x28 - brd).
  { rewrite land7_mod8, Z.mod_small by lia. unfold baseAddress. lia. }
  rewrite NewRelay_run by assumption. rewrite Ho. cbv zeta.
  rewrite Board_run. cbn [file]. rewrite Ha.
  clear Ho.
  destruct (rep_err _) as [e0|].
  - split; [reflexivity|]. split; [|discriminate].
    intros e He. inversion He. reflexivity.
  - split; [reflexivity|]. split; [discriminate|]. reflexivity.
Qed.

Lemma NewRelay_after_open_witness :
  fst (NewRelay no_board 1 3 [])
  = (Some (mkRelay 3 0),
     Some (CantSetSlave slaveAddress (0x28 - 3) (External "remote I/O error"))) /\
  fst (NewRelay Samples.healthy 1 3 []) = (Some (mkRelay 3 3), None).
Proof.
  split.
  - apply (proj1 (proj2 (NewRelay_after_open no_board 1 3 []
                           ltac:(lia) eq_refl))). reflexivity.
  - apply (proj2 (proj2 (NewRelay_after_open Samples.healthy 1 3 []
                           ltac:(lia) eq_refl))). reflexivity.
Defined.

(** X8.  [Board] does not check its argument.  For every [n] it issues one
    ioctl whose address is [0x27 - ((n-1) mod 8)], always within
    0x20 to 0x27, so [n] and [n + 8] address the same board; on success the
    relay records [n] as given, on failure it records board 0. *)
Theorem Board_addressing (dev : Device) (r : Relay) (n : Z) (w : log) :
  0x20 <= 0x27 - (n - 1) mod 8 <= 0x27 /\
  snd (Board dev r n w)
  = Sys (SysIoctl (file r) slaveAddress (0x27 - (n - 1) mod 8)) :: w /\
  snd (Board dev r (n + 8) w) = snd (Board dev r n w) /\
  (board (fst (fst (Board dev r n w))) = n \/
   board (fst (fst (Board dev r n w))) = 0) /\
  (snd (fst (Board dev r n w)) = None ->
   fst (fst (Board dev r n w)) = mkRelay (file r) n) /\
  (snd (fst (Board dev r n w)) <> None ->
   fst (fst (Board dev r n w)) = mkRelay (file r) 0).
Proof.
  assert (Hmod : (n + 8 - 1) mod 8 = (n - 1) mod 8).
  { replace (n + 8 - 1) with (n - 1 + 1 * 8) by ring. apply Z.mod_add. lia. }
  pose proof (Z.mod_pos_bound (n - 1) 8 ltac:(lia)) as Hr.
  rewrite !Board_run, !land7_mod8, Hmod. unfold baseAddress.
  split; [lia|].
  destruct (rep_err (dev w (SysIoctl (file r) slaveAddress (39 - (n - 1) mod 8))))
    as [e|]; cbn [fst snd board];
    repeat split; auto; try discriminate; try congruence.
Qed.

Lemma Board_addressing_witness :
  fst (fst (Board Samples.healthy Samples.relay1 9 [])) = mkRelay 3 9 /\
  snd (Board Samples.healthy Samples.relay1 9 [])
  = [Sys (SysIoctl 3 slaveAddress 0x27)].
Proof.
  pose proof (Board_addressing Samples.healthy Samples.relay1 9 [])
    as [_ [Hlog [_ [_ [Hok _]]]]].
  split; [apply Hok; reflexivity | exact Hlog].
Defined.

(** X9.  [Set] makes one attempt: whatever the device answers, it issues
    exactly one write of [0x01, relay2ic(state)].  It returns nil only when
    that write reports no error and 2 bytes written; an error is wrapped,
    and a write of any other length is an error carrying the count. *)
Theorem Set_single_attempt (dev : Device) (r : Relay) (state : Z) (w : log) :
  writes (snd (Set_ dev r state w))
  = [writeAddress; relay2ic state] :: writes w /\
  (fst (Set_ dev r state w) = None <->
   rep_err (dev (CallSet state :: w)
              (SysWrite (file r) [writeAddress; relay2ic state])) = None /\
   rep_n (dev (CallSet state :: w)
            (SysWrite (file r) [writeAddress; relay2ic state])) = 2) /\
  (forall n,
   rep_err (dev (CallSet state :: w)
              (SysWrite (file r) [writeAddress; relay2ic state])) = None ->
   rep_n (dev (CallSet state :: w)
            (SysWrite (file r) [writeAddress; relay2ic state])) = n ->
   n <> 2 ->
   fst (Set_ dev r state w) = Some (ShortWrite n 2)).
Proof.
  rewrite Set_log, Set_result.
  split; [reflexivity|].
  destruct (rep_err _) as [e|].
  - split; [|intros; discriminate]. split; [discriminate | intros [H _]; discriminate].
  - destruct (Z.eqb_spec
      (rep_n (dev (CallSet state :: w)
                (SysWrite (file r) [writeAddress; relay2ic state]))) 2) as [H2|H2].
    + split; [split; auto|]. intros n _ Hn Hne. congruence.
    + split.
      * split; [discriminate | intros [_ H]; contradiction].
      * intros n _ Hn _. rewrite Hn. reflexivity.
Qed.

Lemma Set_single_attempt_witness :
  fst (Set_ (fun _ _ => mkReply 1 [] None) Samples.relay1 5 [])
  = Some (ShortWrite 1 2).
Proof.
  apply (proj2 (proj2 (Set_single_attempt (fun _ _ => mkReply 1 [] None)
                         Samples.relay1 5 [])) 1); [reflexivity | reflexivity | lia].
Defined.

(** X10.  Read-back: when, after [Set(state)], the device answers the read
    of [Get] with two bytes of which the second is the byte [Set] wrote,
    [Get] returns the low byte of [state]; for a mask in 0 to 255 that is
    the mask itself. *)
Theorem Set_then_Get (dev : Device) (r : Relay) (state b0 : Z) (w : log) :
  rep_err (dev (snd (Set_ dev r state w)) (SysRead (file r) 2)) = None ->
  rep_data (dev (snd (Set_ dev r state w)) (SysRead (file r) 2))
  = [b0; relay2ic state] ->
  fst (Get dev r (snd (Set_ dev r state w))) = (state mod 256, None) /\
  (0 <= state <= 255 ->
   fst (Get dev r (snd (Set_ dev r state w))) = (state, None)).
Proof.
  intros He Hd.
  assert (H : fst (Get dev r (snd (Set_ dev r state w))) = (state mod 256, None)).
  { unfold Get. cbv [bind sys ret].
    change (length [readAddress; 0]) with 2%nat.
    rewrite He, Hd. cbn [map firstn length app skipn nth].
    change (Z.of_nat 2 =? Z.of_nat 2) with true. cbn [negb fst].
    f_equal. unfold to_byte at 1.
    rewrite Z.mod_small by (pose proof (relay2ic_range state); lia).
    rewrite relay2ic_low8.
    apply (byte_facts (state mod 256) (mod256_range state)). }
  split; [exact H|].
  intros Hs. rewrite H, Z.mod_small by lia. reflexivity.
Qed.

Lemma Set_then_Get_witness :
  fst (Get loopback Samples.relay1 (snd (Set_ loopback Samples.relay1 5 [])))
  = (5, None).
Proof.
  apply (proj2 (Set_then_Get loopback Samples.relay1 5 0 [] eq_refl eq_refl)).
  lia.
Defined.

(** ** The shape of a run *)

Section RunShape.
Variable dev : Device.

Lemma event_run_ok_rev e r pct w w' :
  event_run dev e r pct w = (None, w') ->
  rev w' = rev w ++ event_trace r pct e.
Proof.
  intros H. apply event_run_ok_log in H. subst w'.
  change (relay2ic 0) with 0.
  cbn [rev]. unfold event_trace.
  repeat rewrite <- app_assoc. reflexivity.
Qed.

Lemma event_run_err_rev e r pct w x w' :
  event_run dev e r pct w = (Some x, w') ->
  rev w' = rev w ++ failed_trace r e.
Proof.
  intros H. apply event_run_err_log in H. subst w'.
  cbn [rev]. unfold failed_trace.
  repeat rewrite <- app_assoc. reflexivity.
Qed.

Lemma program_run_ok_rev p r pct : forall w w',
  program_run dev p r pct w = (None, w') ->
  rev w' = rev w ++ flat_map (event_trace r pct) p.
Proof.
  induction p as [|e rest IH]; intros w w' H.
  - cbn in H. inversion H. cbn. rewrite app_nil_r. reflexivity.
  - cbn [program_run] in H. unfold bind in H.
    destruct (event_run dev e r pct w) as [[x|] w1] eqn:E; [discriminate|].
    rewrite (IH w1 w' H), (event_run_ok_rev e r pct w w1 E).
    cbn [flat_map]. rewrite <- app_assoc. reflexivity.
Qed.

Lemma program_run_err_rev p r pct : forall w w' x,
  program_run dev p r pct w = (Some x, w') ->
  exists done e rest,
    p = done ++ e :: rest /\
    rev w' = rev w ++ flat_map (event_trace r pct) done ++ failed_trace r e /\
    fst (Set_ dev r (event_mask e)
           (rev (rev w ++ flat_map (event_trace r pct) done))) = Some x.
Proof.
  induction p as [|e rest IH]; intros w w' x H.
  - cbn in H. discriminate.
  - cbn [program_run] in H. unfold bind in H.
    destruct (event_run dev e r pct w) as [[y|] w1] eqn:E.
    + inversion H. subst y w1.
      exists [], e, rest. split; [reflexivity|].
      cbn [flat_map app]. split.
      * apply (event_run_err_rev e r pct w x w' E).
      * rewrite app_nil_r, rev_involutive, <- (event_run_result dev e r pct w), E.
        reflexivity.
    + destruct (IH w1 w' x H) as [done [e1 [rest1 [Hp [Hrev Hset]]]]].
      exists (e :: done), e1, rest1.
      pose proof (event_run_ok_rev e r pct w w1 E) as Hw1.
      split; [rewrite Hp; reflexivity|]. split.
      * rewrite Hrev, Hw1. cbn [flat_map]. rewrite <- !app_assoc. reflexivity.
      * rewrite Hw1 in Hset. cbn [flat_map].
        rewrite <- app_assoc in Hset. rewrite app_assoc in Hset.
        rewrite <- app_assoc in Hset. exact Hset.
Qed.

Lemma slept_app a b : slept (a ++ b) = slept a + slept b.
Proof.
  induction a as [|x a IH]; cbn; [reflexivity|].
  destruct x; rewrite IH; lia.
Qed.

Lemma slept_rev a : slept (rev a) = slept a.
Proof.
  induction a as [|x a IH]; cbn; [reflexivity|].
  rewrite slept_app, IH. destruct x; cbn; lia.
Qed.

Lemma slept_flat_map r pct p :
  slept (flat_map (event_trace r pct) p)
  = sum_scaled p pct + Z.of_nat (length p) * offTime.
Proof.
  induction p as [|e rest IH].
  - reflexivity.
  - cbn [flat_map]. rewrite slept_app, IH.
    cbn [sum_scaled fold_right length]. fold (sum_scaled rest pct).
    unfold event_trace. cbn [slept]. lia.
Qed.

Lemma duration_wrap p pct :
  duration p pct = wrap64 (sum_scaled p pct + Z.of_nat (length p) * offTime).
Proof.
  unfold duration. rewrite add64_mul64, fold_total. f_equal.
Qed.

Lemma Set_ok_on_good_device r state w :
  writes_succeed dev -> fst (Set_ dev r state w) = None.
Proof.
  intros Hg. rewrite Set_result.
  destruct (Hg (CallSet state :: w) (file r) [writeAddress; relay2ic state])
    as [He Hn].
  rewrite He, Hn. reflexivity.
Qed.

Lemma program_run_on_good_device p r pct : forall w,
  writes_succeed dev -> fst (program_run dev p r pct w) = None.
Proof.
  induction p as [|e rest IH]; intros w Hg; [reflexivity|].
  cbn [program_run]. unfold bind.
  pose proof (event_run_result dev e r pct w) as Hr.
  rewrite (Set_ok_on_good_device r (event_mask e) w Hg) in Hr.
  destruct (event_run dev e r pct w) as [[x|] w1]; cbn [fst] in Hr;
    [discriminate|].
  apply IH. exact Hg.
Qed.

End RunShape.

(** The writes of a log in the order they were issued. *)
Lemma writes_chronological a b :
  rev (writes (rev (a ++ b))) = rev (writes (rev a)) ++ rev (writes (rev b)).
Proof.
  rewrite rev_app_distr.
  induction (rev b) as [|x l IH]; cbn.
  - rewrite app_nil_r. reflexivity.
  - destruct x as [c| | | | | |]; try exact IH.
    destruct c; try exact IH.
    cbn. rewrite IH, app_assoc. reflexivity.
Qed.

Lemma writes_of_events r pct p :
  rev (writes (rev (flat_map (event_trace r pct) p)))
  = flat_map (fun e => [[writeAddress; relay2ic (event_mask e)];
                        [writeAddress; 0]]) p.
Proof.
  induction p as [|e rest IH]; [reflexivity|].
  cbn [flat_map]. rewrite writes_chronological, IH. reflexivity.
Qed.

(** X11.  A run that returns nil has gone through the events in list
    order, and for each of them, with nothing in between: the on-write of
    its mask, the scaled sleep, the all-off write and the settling sleep.
    It has issued two writes per event. *)
Theorem program_run_trace (dev : Device) (p : program) (r : Relay) (pct : Z)
    (w w' : log) :
  program_run dev p r pct w = (None, w') ->
  rev w' = rev w ++ flat_map (event_trace r pct) p /\
  rev (writes w')
  = rev (writes w)
    ++ flat_map (fun e => [[writeAddress; relay2ic (event_mask e)];
                           [writeAddress; 0]]) p.
Proof.
  intros H. pose proof (program_run_ok_rev dev p r pct w w' H) as Hrev.
  split; [exact Hrev|].
  rewrite <- (rev_involutive w'), Hrev, writes_chronological, rev_involutive.
  rewrite writes_of_events. reflexivity.
Qed.

Lemma program_run_trace_witness :
  rev (writes (snd (program_run Samples.healthy Samples.two_zones
                      Samples.relay1 100 [])))
  = [[1; 1]; [1; 0]; [1; 4]; [1; 0]].
Proof.
  apply (proj2 (program_run_trace Samples.healthy Samples.two_zones
                  Samples.relay1 100 []
                  (snd (program_run Samples.healthy Samples.two_zones
                          Samples.relay1 100 [])) eq_refl)).
Defined.

(** X12.  The time a run that returns nil has slept is the sum of the
    scaled durations plus one settling delay per event, and
    [program.duration] is that time in [time.Duration] arithmetic. *)
Theorem run_sleeps_for_duration (dev : Device) (p : program) (r : Relay)
    (pct : Z) (w w' : log) :
  program_run dev p r pct w = (None, w') ->
  slept w' - slept w = sum_scaled p pct + Z.of_nat (length p) * offTime /\
  duration p pct = wrap64 (slept w' - slept w).
Proof.
  intros H. pose proof (program_run_ok_rev dev p r pct w w' H) as Hrev.
  assert (Hs : slept w' - slept w
               = sum_scaled p pct + Z.of_nat (length p) * offTime).
  { rewrite <- (slept_rev w'), Hrev, slept_app, slept_rev, slept_flat_map. lia. }
  split; [exact Hs|]. rewrite Hs. apply duration_wrap.
Qed.

Lemma run_sleeps_for_duration_witness :
  slept (snd (program_run Samples.healthy Samples.two_zones
                Samples.relay1 100 [])) - slept [] = 26 * Second.
Proof.
  apply (proj1 (run_sleeps_for_duration Samples.healthy Samples.two_zones
                  Samples.relay1 100 []
                  (snd (program_run Samples.healthy Samples.two_zones
                          Samples.relay1 100 [])) eq_refl)).
Defined.

(** X13.  A run that returns an error stopped at the on-write of one
    event: the events before it ran in full, the log ends with that failed
    write, nothing of the later events was attempted, and the error is the
    one that write returned (a wrapped write error or a short write). *)
Theorem program_run_failure_shape (dev : Device) (p : program) (r : Relay)
    (pct : Z) (w w' : log) (x : error) :
  program_run dev p r pct w = (Some x, w') ->
  exists done e rest,
    p = done ++ e :: rest /\
    rev w' = rev w ++ flat_map (event_trace r pct) done ++ failed_trace r e /\
    hd_error w'
    = Some (Sys (SysWrite (file r) [writeAddress; relay2ic (event_mask e)])) /\
    ((exists c, x = SetError c) \/ (exists n, x = ShortWrite n 2)).
Proof.
  intros H.
  destruct (program_run_err_rev dev p r pct w w' x H)
    as [done [e [rest [Hp [Hrev Hset]]]]].
  exists done, e, rest. split; [exact Hp|]. split; [exact Hrev|]. split.
  - rewrite <- (rev_involutive w'), Hrev.
    unfold failed_trace. rewrite !app_assoc.
    rewrite rev_app_distr. reflexivity.
  - rewrite Set_result in Hset.
    destruct (rep_err _) as [c|].
    + left. exists c. congruence.
    + destruct (_ =? 2); [discriminate|].
      right. eexists. inversion Hset. reflexivity.
Qed.

Lemma program_run_failure_shape_witness :
  exists done e rest,
    Samples.two_zones = done ++ e :: rest /\
    rev (snd (program_run zone2_fails Samples.two_zones Samples.relay1 100 []))
    = rev [] ++ flat_map (event_trace Samples.relay1 100) done
      ++ failed_trace Samples.relay1 e /\
    hd_error (snd (program_run zone2_fails Samples.two_zones Samples.relay1 100 []))
    = Some (Sys (SysWrite (file Samples.relay1)
                   [writeAddress; relay2ic (event_mask e)])) /\
    ((exists c, SetError (External "remote I/O error") = SetError c) \/
     (exists n, SetError (External "remote I/O error") = ShortWrite n 2)).
Proof.
  apply (program_run_failure_shape zone2_fails Samples.two_zones
           Samples.relay1 100 []). reflexivity.
Defined.

(** X14.  On a device whose writes always succeed in full, [program.run]
    never fails: every program runs to the end and returns nil. *)
Theorem program_run_completes (dev : Device) (p : program) (r : Relay)
    (pct : Z) (w : log) :
  writes_succeed dev ->
  fst (program_run dev p r pct w) = None /\
  rev (snd (program_run dev p r pct w))
  = rev w ++ flat_map (event_trace r pct) p.
Proof.
  intros Hg.
  pose proof (program_run_on_good_device dev p r pct w Hg) as Hn.
  split; [exact Hn|].
  apply (program_run_ok_rev dev p r pct w).
  destruct (program_run dev p r pct w) as [o w']. cbn [fst] in Hn. subst o.
  reflexivity.
Qed.

Lemma program_run_completes_witness :
  fst (program_run Samples.healthy Samples.two_zones Samples.relay1 100 []) = None.
Proof.
  apply (program_run_completes Samples.healthy Samples.two_zones
           Samples.relay1 100 []).
  intros w fd buf. split; reflexivity.
Defined.

(** ** Scaling and total duration *)

Section ScaleFacts.

Lemma wrap64_range x : minInt64 <= wrap64 x <= maxInt64.
Proof.
  unfold wrap64, minInt64, maxInt64.
  pose proof (Z.mod_pos_bound (x + 2 ^ 63) (2 ^ 64) ltac:(lia)). lia.
Qed.

Lemma scale_no_overflow d pct :
  minInt64 <= d * pct <= maxInt64 ->
  scale d pct = Z.max offTime (Z.quot (d * pct) 100).
Proof.
  intros H. unfold scale, mul64, quo64. rewrite (wrap64_in_range _ H).
  destruct (Z.ltb_spec (Z.quot (d * pct) 100) offTime); lia.
Qed.

Lemma sum_scaled_app p q pct :
  sum_scaled (p ++ q) pct = sum_scaled p pct + sum_scaled q pct.
Proof.
  induction p as [|e rest IH]; cbn [app sum_scaled fold_right]; [reflexivity|].
  fold (sum_scaled (rest ++ q) pct). fold (sum_scaled rest pct).
  rewrite IH. lia.
Qed.

Lemma sum_scaled_floor p pct :
  Z.of_nat (length p) * offTime <= sum_scaled p pct.
Proof.
  induction p as [|e rest IH]; [cbn; lia|].
  cbn [sum_scaled fold_right]. fold (sum_scaled rest pct).
  pose proof (scale_floor (dur e) pct).
  replace (Z.of_nat (length (e :: rest))) with (1 + Z.of_nat (length rest))
    by (cbn [length]; lia).
  lia.
Qed.

Lemma scale_zero_pct d : scale d 0 = offTime.
Proof.
  unfold scale, mul64, quo64. rewrite Z.mul_0_r. reflexivity.
Qed.

Lemma sum_scaled_zero_pct p :
  sum_scaled p 0 = Z.of_nat (length p) * offTime.
Proof.
  induction p as [|e rest IH]; [reflexivity|].
  cbn [sum_scaled fold_right]. fold (sum_scaled rest 0).
  rewrite IH, scale_zero_pct.
  replace (Z.of_nat (length (e :: rest))) with (1 + Z.of_nat (length rest))
    by (cbn [length]; lia).
  lia.
Qed.

End ScaleFacts.

(** X15.  [scale] never returns less than the settling delay and never
    more than a hundredth of the largest [time.Duration], whatever the
    duration and the percentage, negative ones and products that overflow
    included; at 0 percent, and for a zero duration, it returns the
    settling delay. *)
Theorem scale_bounds (d pct : Z) :
  offTime <= scale d pct <= maxInt64 / 100 /\
  scale d 0 = offTime /\
  scale 0 pct = offTime.
Proof.
  split; [|split; [apply scale_zero_pct | reflexivity]].
  split; [apply scale_floor|].
  unfold scale, mul64, quo64.
  pose proof (wrap64_range (d * pct)) as [_ Hmax].
  pose proof (Z.quot_le_mono (wrap64 (d * pct)) maxInt64 100 ltac:(lia) Hmax) as Hq.
  change (Z.quot maxInt64 100) with (maxInt64 / 100) in Hq.
  destruct (Z.ltb_spec (Z.quot (wrap64 (d * pct)) 100) offTime) as [Hlt|Hge].
  - vm_compute. discriminate.
  - exact Hq.
Qed.

(** X16.  When the product of duration and percentage fits a
    [time.Duration], [scale] is the larger of the settling delay and the
    product divided by 100, rounded toward zero.  At 100 percent a duration
    between the settling delay and a hundredth of the largest duration is
    returned unchanged, and for a non-negative duration a larger percentage
    never gives a shorter time. *)
Theorem scale_exact (d pct pct' : Z) :
  minInt64 <= d * pct <= maxInt64 ->
  scale d pct = Z.max offTime (Z.quot (d * pct) 100) /\
  (pct = 100 -> offTime <= d -> scale d pct = d) /\
  (0 <= d -> 0 <= pct <= pct' -> d * pct' <= maxInt64 ->
   scale d pct <= scale d pct').
Proof.
  intros H. pose proof (scale_no_overflow d pct H) as Hs.
  split; [exact Hs|]. split.
  - intros -> Hd. rewrite Hs, Z.quot_mul by lia. lia.
  - intros Hd Hp Hmax.
    assert (H' : minInt64 <= d * pct' <= maxInt64).
    { split; [|exact Hmax]. unfold minInt64. nia. }
    rewrite Hs, (scale_no_overflow d pct' H').
    assert (Hq : Z.quot (d * pct) 100 <= Z.quot (d * pct') 100).
    { apply Z.quot_le_mono; [lia | nia]. }
    lia.
Qed.

Lemma scale_exact_witness :
  scale (10 * Second) 50 = Z.max offTime (Z.quot (10 * Second * 50) 100) /\
  scale (10 * Second) 50 <= scale (10 * Second) 100.
Proof.
  pose proof (scale_exact (10 * Second) 50 100) as H.
  destruct H as [H1 [_ H3]]; [vm_compute; split; discriminate|].
  split; [exact H1|].
  apply H3; [vm_compute; discriminate | lia | vm_compute; discriminate].
Defined.

(** X17.  The duration of two programs run one after the other is the sum
    of their durations, in [time.Duration] arithmetic. *)
Theorem duration_app (p q : program) (pct : Z) :
  duration (p ++ q) pct = add64 (duration p pct) (duration q pct).
Proof.
  rewrite !duration_wrap, sum_scaled_app, length_app, Nat2Z.inj_add.
  unfold add64. rewrite wrap64_absorb, wrap64_absorb_r. f_equal. ring.
Qed.

(** X18.  As long as the total fits a [time.Duration], a program of [n]
    events never takes less than [2 * n] settling delays, whatever the
    percentage, and takes exactly that at 0 percent. *)
Theorem duration_floor (p : program) (pct : Z) :
  sum_scaled p pct + Z.of_nat (length p) * offTime <= maxInt64 ->
  2 * Z.of_nat (length p) * offTime <= duration p pct /\
  duration p 0 = 2 * Z.of_nat (length p) * offTime.
Proof.
  intros Hfit.
  pose proof (sum_scaled_floor p pct) as Hfl.
  assert (Hn : 0 <= Z.of_nat (length p) * offTime)
    by (unfold offTime, Second; lia).
  rewrite !duration_wrap, sum_scaled_zero_pct.
  rewrite !wrap64_in_range by (unfold minInt64; lia).
  lia.
Qed.

Lemma duration_floor_witness :
  2 * Z.of_nat (length Samples.two_zones) * offTime
  <= duration Samples.two_zones 100 /\
  duration Samples.two_zones 0 = 2 * Z.of_nat (length Samples.two_zones) * offTime.
Proof.
  apply (duration_floor Samples.two_zones 100). vm_compute. discriminate.
Defined.

(** ** Signals *)

(** X19.  The two signals that do not end the process leave the relays
    alone.  SIGURG is dropped without a trace.  SIGUSR1 performs one read
    and prints the state, writes nothing and lets the loop go on; the
    error of that read is discarded, so a failed read is reported as
    state 0. *)
Theorem query_signals_only_read (dev : Device) (r : Relay) (w : log) :
  handle_signal dev r SIGURG w = (false, w) /\
  handle_signal dev r SIGUSR1 w
  = (false,
     [Stderr (MsgState
                (fst (fst (Get dev r (Stderr (MsgGotSignal SIGUSR1) :: w)))));
      Sys (SysRead (file r) 2);
      Stderr (MsgGotSignal SIGUSR1)] ++ w) /\
  writes (snd (handle_signal dev r SIGUSR1 w)) = writes w /\
  (rep_err (dev (Stderr (MsgGotSignal SIGUSR1) :: w) (SysRead (file r) 2)) <> None ->
   hd_error (snd (handle_signal dev r SIGUSR1 w)) = Some (Stderr (MsgState 0))).
Proof.
  assert (H : handle_signal dev r SIGUSR1 w
    = (false,
       [Stderr (MsgState
                  (fst (fst (Get dev r (Stderr (MsgGotSignal SIGUSR1) :: w)))));
        Sys (SysRead (file r) 2);
        Stderr (MsgGotSignal SIGUSR1)] ++ w)).
  { unfold handle_signal. change (SIGUSR1 =? SIGURG) with false.
    change (SIGUSR1 =? SIGUSR1) with true. cbv [bind emit ret].
    pose proof (Get_log dev r (Stderr (MsgGotSignal SIGUSR1) :: w)) as Hg.
    destruct (Get dev r (Stderr (MsgGotSignal SIGUSR1) :: w)) as [res w1].
    cbn [snd] in Hg. subst w1. reflexivity. }
  split; [reflexivity|]. split; [exact H|]. rewrite H.
  split; [reflexivity|].
  intros He. cbn [app hd_error]. do 3 f_equal.
  unfold Get. cbv [bind sys ret].
  destruct (rep_err _); [reflexivity | contradiction].
Qed.

Lemma query_signals_only_read_witness :
  hd_error (snd (handle_signal
                   (fun _ _ => mkReply 0 [] (Some (External "remote I/O error")))
                   Samples.relay1 SIGUSR1 []))
  = Some (Stderr (MsgState 0)).
Proof.
  apply (query_signals_only_read
           (fun _ _ => mkReply 0 [] (Some (External "remote I/O error")))
           Samples.relay1 []).
  discriminate.
Defined.

(** X20.  Once a signal other than SIGURG and SIGUSR1 has been taken, the
    process has exited: the signals delivered after it change nothing. *)
Theorem signals_after_exit_ignored (dev : Device) (r : Relay)
    (before : list Z) (s : Z) (after : list Z) (w : log) :
  s <> SIGURG -> s <> SIGUSR1 ->
  handle_signals dev r (before ++ s :: after) w
  = handle_signals dev r (before ++ [s]) w /\
  fst (handle_signals dev r (before ++ s :: after) w) = true.
Proof.
  intros H1 H2. split.
  - revert w. induction before as [|a rest IH]; intros w.
    + cbn [app handle_signals]. unfold bind.
      rewrite (handle_signal_terminates dev r s w H1 H2). reflexivity.
    + cbn [app handle_signals]. unfold bind.
      destruct (handle_signal dev r a w) as [[|] w1]; [reflexivity | apply IH].
  - apply (proj2 (handle_signals_exit dev r (before ++ s :: after) w)).
    apply Exists_app. right. left. split; assumption.
Qed.

Lemma signals_after_exit_ignored_witness :
  handle_signals Samples.healthy Samples.relay1
    ([SIGUSR1] ++ SIGTERM :: [SIGUSR1; SIGINT]) []
  = handle_signals Samples.healthy Samples.relay1 ([SIGUSR1] ++ [SIGTERM]) [].
Proof.
  apply (signals_after_exit_ignored Samples.healthy Samples.relay1
           [SIGUSR1] SIGTERM [SIGUSR1; SIGINT] []); discriminate.
Defined.

(** ** Parsing and printing *)

Section SplitFacts.

Lemma Split_length s c : length (Split s c) = S (count_char c s).
Proof.
  induction s as [|a rest IH]; [reflexivity|].
  cbn [Split count_char]. destruct (Ascii.eqb a c).
  - cbn [length]. rewrite IH. reflexivity.
  - destruct (Split rest c) as [|h t]; cbn [length] in *; lia.
Qed.

Lemma Split_no_sep s c : count_char c s = O -> Split s c = [s].
Proof.
  induction s as [|a rest IH]; intros H; [reflexivity|].
  cbn [Split count_char] in *. destruct (Ascii.eqb a c); [discriminate|].
  rewrite IH by exact H. reflexivity.
Qed.

Lemma Split_app a b c :
  count_char c a = O ->
  Split (a ++ String c b) c = a :: Split b c.
Proof.
  induction a as [|x rest IH]; intros H.
  - cbn. rewrite Ascii.eqb_refl. reflexivity.
  - cbn [append Split count_char] in *.
    destruct (Ascii.eqb x c); [discriminate|].
    rewrite IH by exact H. reflexivity.
Qed.

Lemma Split_Join l c :
  l <> [] ->
  Forall (fun x => count_char c x = O) l ->
  Split (Join l (String c EmptyString)) c = l.
Proof.
  induction l as [|a rest IH]; intros Hne Hall; [congruence|].
  inversion Hall as [|x xs Ha Hrest]. subst.
  destruct rest as [|b t].
  - cbn [Join]. apply Split_no_sep. exact Ha.
  - change (Join (a :: b :: t) (String c EmptyString))
      with (a ++ String c (Join (b :: t) (String c EmptyString)))%string.
    rewrite Split_app by exact Ha.
    rewrite IH; [reflexivity | discriminate | exact Hrest].
Qed.

End SplitFacts.

Section ParsingInvariants.
Variable ParseDuration : string -> Z * option error.
Variable Atoi : string -> Z * option error.

Lemma event_Set_valid e s e' :
  event_Set ParseDuration Atoi e s = (e', None) -> valid_event e'.
Proof.
  unfold event_Set.
  destruct (negb _); [discriminate|].
  destruct (ParseDuration _) as [d [c|]]; [discriminate|].
  destruct (Z.ltb_spec d offTime) as [Hd|Hd]; [discriminate|].
  destruct (Atoi _) as [n [c|]]; [discriminate|].
  destruct (Z.ltb_spec n 0) as [Hn|Hn]; [discriminate|].
  intros H. inversion H. split; cbn; assumption.
Qed.

Lemma program_Set_loop_shape fields : forall p,
  exists events,
    fst (program_Set_loop ParseDuration Atoi p fields) = p ++ events /\
    Forall valid_event events /\
    (length events <= length fields)%nat /\
    (snd (program_Set_loop ParseDuration Atoi p fields) = None ->
     length events = length fields).
Proof.
  induction fields as [|v rest IH]; intros p.
  - exists []. cbn. rewrite app_nil_r. repeat split; auto.
  - cbn [program_Set_loop].
    destruct (event_Set ParseDuration Atoi (mkEvent 0 0) v) as [e [x|]] eqn:E.
    + exists []. cbn. rewrite app_nil_r.
      repeat split; auto; [lia | discriminate].
    + destruct (IH (p ++ [e])) as [events [H1 [H2 [H3 H4]]]].
      exists (e :: events). rewrite H1, <- app_assoc.
      split; [reflexivity|]. split.
      * constructor; [exact (event_Set_valid _ _ _ E) | exact H2].
      * cbn [length]. split; [lia|]. intros Hn. rewrite (H4 Hn). reflexivity.
Qed.

Lemma program_Set_loop_empty_field fields : forall p,
  In EmptyString fields ->
  snd (program_Set_loop ParseDuration Atoi p fields) <> None.
Proof.
  induction fields as [|v rest IH]; intros p Hin; [contradiction|].
  cbn [program_Set_loop].
  destruct (event_Set ParseDuration Atoi (mkEvent 0 0) v) as [e [x|]] eqn:E;
    [cbn; discriminate|].
  destruct Hin as [Hv|Hin]; [|apply IH; exact Hin].
  subst v. cbn in E. discriminate.
Qed.

End ParsingInvariants.

(** X21.  [event.Set] reports an invalid event, naming the whole input,
    exactly when the input does not contain exactly one colon. *)
Theorem event_Set_needs_one_colon
    (ParseDuration Atoi : string -> Z * option error) (e : event) (s : string) :
  event_Set ParseDuration Atoi e s = (e, Some (InvalidEvent s))
  <-> count_char ":" s <> 1%nat.
Proof.
  unfold event_Set. rewrite Split_length.
  destruct (Nat.eqb_spec (S (count_char ":" s)) 2) as [H2|H2]; cbn [negb].
  - split; [|lia].
    destruct (ParseDuration _) as [d [c|]]; [discriminate|].
    destruct (d <? offTime); [discriminate|].
    destruct (Atoi _) as [n [c|]]; [discriminate|].
    destruct (n <? 0); discriminate.
  - split; [lia | reflexivity].
Qed.

(** X22.  Every event that [event.Set] accepts has a non-negative zone id
    and a duration of at least the settling delay; when it returns an
    error the receiver is left as it was. *)
Theorem event_Set_invariant
    (ParseDuration Atoi : string -> Z * option error)
    (e e' : event) (s : string) (o : option error) :
  event_Set ParseDuration Atoi e s = (e', o) ->
  (o = None -> 0 <= id e' /\ offTime <= dur e') /\
  (o <> None -> e' = e).
Proof.
  intros H. split.
  - intros ->. exact (event_Set_valid _ _ _ _ _ H).
  - intros Ho. destruct o as [x|]; [|congruence].
    exact (event_Set_error_keeps _ _ _ _ _ _ H).
Qed.

Lemma event_Set_invariant_witness :
  0 <= id (mkEvent 4 (300 * Second)) /\ offTime <= dur (mkEvent 4 (300 * Second)).
Proof.
  apply (event_Set_invariant TestDouble.ParseDuration TestDouble.Atoi
           (mkEvent 0 0) (mkEvent 4 (300 * Second)) "4:5m" None);
    reflexivity.
Defined.

(** X23.  [program.Set] only ever appends: the program it leaves starts
    with the program it was given, each appended event has a non-negative
    id and a duration of at least the settling delay, and on success one
    event was appended per comma-separated field, so at least one.  Calling
    it again on a second specification extends the same program. *)
Theorem program_Set_appends
    (ParseDuration Atoi : string -> Z * option error) (p : program) (s : string) :
  exists events,
    fst (program_Set ParseDuration Atoi p s) = p ++ events /\
    Forall valid_event events /\
    (length events <= S (count_char "," s))%nat /\
    (snd (program_Set ParseDuration Atoi p s) = None ->
     length events = S (count_char "," s)).
Proof.
  unfold program_Set.
  destruct (program_Set_loop_shape ParseDuration Atoi (Split s ",") p)
    as [events H].
  rewrite Split_length in H. exists events. exact H.
Qed.

(** X24.  A specification with an empty field is rejected: the empty
    string, a leading or trailing comma and two commas in a row all make
    [program.Set] return an error.  For the empty string the error names
    the empty event and nothing is appended. *)
Theorem program_Set_rejects_empty_field
    (ParseDuration Atoi : string -> Z * option error) (p : program) (s : string) :
  (In EmptyString (Split s ",") ->
   snd (program_Set ParseDuration Atoi p s) <> None) /\
  program_Set ParseDuration Atoi p "" = (p, Some (InvalidEvent "")).
Proof.
  split; [|reflexivity].
  intros Hin. unfold program_Set.
  apply program_Set_loop_empty_field. exact Hin.
Qed.

Lemma program_Set_rejects_empty_field_witness :
  snd (program_Set TestDouble.ParseDuration TestDouble.Atoi [] "1:10s,")
  <> None.
Proof.
  apply (program_Set_rejects_empty_field TestDouble.ParseDuration
           TestDouble.Atoi [] "1:10s,").
  cbn. right. left. reflexivity.
Defined.

Lemma event_Set_needs_one_colon_witness :
  event_Set TestDouble.ParseDuration TestDouble.Atoi (mkEvent 0 0) "1:2:3"
  = (mkEvent 0 0, Some (InvalidEvent "1:2:3")).
Proof.
  apply (proj2 (event_Set_needs_one_colon TestDouble.ParseDuration
                  TestDouble.Atoi (mkEvent 0 0) "1:2:3")).
  cbn. lia.
Defined.

Lemma program_Set_appends_witness :
  exists events,
    fst (program_Set TestDouble.ParseDuration TestDouble.Atoi
           [mkEvent 7 offTime] "1:10s,2:10s")
    = [mkEvent 7 offTime] ++ events /\
    length events = 2%nat.
Proof.
  destruct (program_Set_appends TestDouble.ParseDuration TestDouble.Atoi
              [mkEvent 7 offTime] "1:10s,2:10s") as [events [H1 [_ [_ H4]]]].
  exists events. split; [exact H1 | apply H4; reflexivity].
Defined.

Section RoundTrip.
Variable ParseDuration : string -> Z * option error.
Variable Atoi : string -> Z * option error.
Variable FormatInt : Z -> string.
Variable DurationString : Z -> string.

Local Abbreviation prints_cleanly :=
  (prints_cleanly ParseDuration Atoi FormatInt DurationString).

Lemma count_char_app c a b :
  count_char c (a ++ b) = (count_char c a + count_char c b)%nat.
Proof.
  induction a as [|x rest IH]; [reflexivity|].
  cbn [append count_char]. rewrite IH. lia.
Qed.

Lemma event_round_trip e0 e :
  valid_event e -> prints_cleanly e ->
  event_Set ParseDuration Atoi e0 (event_String FormatInt DurationString e)
  = (e, None).
Proof.
  intros [Hid Hdur] [Hc1 [Hc2 [_ [_ [Ha Hd]]]]].
  rewrite (event_Set_two_fields ParseDuration Atoi e0 _
             (FormatInt (id e)) (DurationString (dur e))).
  - rewrite Hd, Ha.
    apply Z.ltb_ge in Hdur. rewrite Hdur.
    apply Z.ltb_ge in Hid. rewrite Hid.
    destruct e. reflexivity.
  - unfold event_String.
    change (":" ++ DurationString (dur e))%string
      with (String ":" (DurationString (dur e))).
    rewrite Split_app by exact Hc1.
    rewrite Split_no_sep by exact Hc2. reflexivity.
Qed.

End RoundTrip.

(** X25.  Printing an event and parsing the text gives the event back:
    for an event with a non-negative id and a duration of at least the
    settling delay, [event.Set] applied to [event.String] succeeds and
    yields that event, provided the library prints the two fields without
    a colon and parses them back to their values. *)
Theorem event_String_Set_round_trip
    (ParseDuration Atoi : string -> Z * option error)
    (FormatInt DurationString : Z -> string) (e0 e : event) :
  0 <= id e -> offTime <= dur e ->
  prints_cleanly ParseDuration Atoi FormatInt DurationString e ->
  event_Set ParseDuration Atoi e0 (event_String FormatInt DurationString e)
  = (e, None).
Proof.
  intros Hid Hdur Hp. apply event_round_trip; [split; assumption | exact Hp].
Qed.

Lemma event_String_Set_round_trip_witness :
  event_Set TestDouble.ParseDuration TestDouble.Atoi (mkEvent 0 0)
    (event_String TestFormat.FormatInt TestFormat.DurationString
       (mkEvent 12 (45 * Second)))
  = (mkEvent 12 (45 * Second), None).
Proof.
  apply (event_String_Set_round_trip TestDouble.ParseDuration TestDouble.Atoi
           TestFormat.FormatInt TestFormat.DurationString).
  - cbn. lia.
  - vm_compute. discriminate.
  - repeat split.
Defined.

(** X26.  Printing a non-empty program and parsing the text appends the
    same events in the same order, under the same conditions on the
    library for each event, commas included.  The empty program prints as
    the empty string, which does not parse. *)
Theorem program_String_Set_round_trip
    (ParseDuration Atoi : string -> Z * option error)
    (FormatInt DurationString : Z -> string) (q p : program) :
  p <> [] ->
  Forall (fun e => valid_event e /\
                   prints_cleanly ParseDuration Atoi FormatInt DurationString e) p ->
  program_Set ParseDuration Atoi q (program_String FormatInt DurationString p)
  = (q ++ p, None) /\
  program_Set ParseDuration Atoi q (program_String FormatInt DurationString [])
  = (q, Some (InvalidEvent "")).
Proof.
  intros Hne Hall. split; [|reflexivity].
  unfold program_Set, program_String.
  rewrite Split_Join.
  - apply program_Set_loop_all.
    clear Hne. induction Hall as [|e rest [Hv Hp] Hrest IH]; cbn [map].
    + constructor.
    + constructor; [|exact IH].
      apply event_round_trip; assumption.
  - destruct p; [congruence | discriminate].
  - clear Hne. induction Hall as [|e rest [Hv Hp] Hrest IH]; cbn [map].
    + constructor.
    + constructor; [|exact IH].
      destruct Hp as [_ [_ [H3 [H4 _]]]].
      unfold event_String. rewrite !count_char_app, H3, H4. reflexivity.
Qed.

Lemma program_String_Set_round_trip_witness :
  program_Set TestDouble.ParseDuration TestDouble.Atoi []
    (program_String TestFormat.FormatInt TestFormat.DurationString
       Samples.two_zones)
  = ([] ++ Samples.two_zones, None).
Proof.
  apply (program_String_Set_round_trip TestDouble.ParseDuration TestDouble.Atoi
           TestFormat.FormatInt TestFormat.DurationString []).
  - discriminate.
  - constructor; [|constructor; [|constructor]].
    + split; [split; [cbn; lia | vm_compute; discriminate] | repeat split].
    + split; [split; [cbn; lia | vm_compute; discriminate] | repeat split].
Defined.

(** ** The two commands *)

Section MainFacts.
Variable dev : Device.

Lemma NewRelay_no_writes bus brd w :
  writes (snd (NewRelay dev bus brd w)) = writes w.
Proof.
  unfold NewRelay. destruct (_ || _); [reflexivity|].
  cbv [bind sys ret].
  destruct (rep_err (dev w (SysOpen bus))); [reflexivity|].
  rewrite Board_run. destruct (rep_err _); reflexivity.
Qed.

Lemma Get_no_writes r w : writes (snd (Get dev r w)) = writes w.
Proof. rewrite Get_log. reflexivity. Qed.

(** [main] once the board is open and [Get] has answered. *)
Lemma main_after_preflight prog brd bus pct r w1 i o w2 :
  prog <> [] ->
  NewRelay dev bus brd [] = ((Some r, None), w1) ->
  Get dev r w1 = ((i, o), w2) ->
  snd (main dev prog brd bus pct false []) =
  match o with
  | Some e => Stderr (MsgCantTalk e) :: w2
  | None =>
      if i =? 0 then
        Sys (SysClose (file r))
        :: match fst (program_run dev prog r pct (Notify :: w2)) with
           | Some e => [Stderr (MsgFailed e)]
           | None => []
           end
        ++ snd (program_run dev prog r pct (Notify :: w2))
      else Stderr (MsgInUse i) :: w2
  end.
Proof.
  intros Hne Hnew Hget. unfold main.
  destruct prog as [|e rest]; [congruence|].
  replace (Z.of_nat (length (e :: rest)) <? 1) with false
    by (symmetry; apply Z.ltb_ge; cbn [length]; lia).
  unfold bind at 1. rewrite Hnew.
  unfold bind at 1. rewrite Hget.
  destruct o as [x|]; [reflexivity|].
  destruct (i =? 0); [|reflexivity].
  cbn [negb]. cbv [bind emit ret Close sys].
  destruct (program_run dev (e :: rest) r pct (Notify :: w2)) as [[y|] w3];
    reflexivity.
Qed.

End MainFacts.

(** X27.  Without a program [main] prints the usage, and with
    [-total-time] it prints the duration of the program; in both cases it
    makes no system call on the device. *)
Theorem main_without_hardware (dev : Device) (prog : program)
    (brd bus pct : Z) (isDuration : bool) :
  main dev [] brd bus pct isDuration []
  = (tt, [Stderr MsgUsage; Stderr MsgNoProgram]) /\
  (prog <> [] ->
   main dev prog brd bus pct true []
   = (tt, [Stdout (MsgDuration (duration prog pct))]) /\
   syscalls (snd (main dev prog brd bus pct true [])) = []).
Proof.
  split; [reflexivity|].
  intros Hne. unfold main.
  destruct prog as [|e rest]; [congruence|].
  replace (Z.of_nat (length (e :: rest)) <? 1) with false
    by (symmetry; apply Z.ltb_ge; cbn [length]; lia).
  split; reflexivity.
Qed.

Lemma main_without_hardware_witness :
  main Samples.healthy Samples.two_zones 1 1 100 true []
  = (tt, [Stdout (MsgDuration (26 * Second))]).
Proof.
  apply (main_without_hardware Samples.healthy Samples.two_zones 1 1 100 true).
  discriminate.
Defined.

(** X28.  [main] writes to the device only after a clean preflight: if the
    log of an execution holds any write, then a program was given, the
    duration was not asked for, the board number was in 1 to 8, the board
    was opened and selected, and [Get] returned mask 0 without error. *)
Theorem main_writes_need_idle_board (dev : Device) (prog : program)
    (brd bus pct : Z) (isDuration : bool) :
  writes (snd (main dev prog brd bus pct isDuration [])) <> [] ->
  prog <> [] /\ isDuration = false /\ 1 <= brd <= 8 /\
  exists r w1 w2,
    NewRelay dev bus brd [] = ((Some r, None), w1) /\
    Get dev r w1 = ((0, None), w2).
Proof.
  intros Hw.
  destruct prog as [|e rest]; [exfalso; apply Hw; reflexivity|].
  destruct isDuration.
  { exfalso. apply Hw. unfold main.
    replace (Z.of_nat (length (e :: rest)) <? 1) with false
      by (symmetry; apply Z.ltb_ge; cbn [length]; lia).
    reflexivity. }
  pose proof (NewRelay_no_writes dev bus brd []) as Hnw.
  destruct (NewRelay dev bus brd []) as [[ro eo] w1] eqn:EN.
  cbn [snd writes] in Hnw.
  destruct eo as [x|].
  { exfalso. apply Hw. unfold main.
    replace (Z.of_nat (length (e :: rest)) <? 1) with false
      by (symmetry; apply Z.ltb_ge; cbn [length]; lia).
    unfold bind at 1. rewrite EN.
    destruct ro; cbn [emit snd writes]; exact Hnw. }
  destruct ro as [r|].
  2:{ exfalso. apply Hw. unfold main.
      replace (Z.of_nat (length (e :: rest)) <? 1) with false
        by (symmetry; apply Z.ltb_ge; cbn [length]; lia).
      unfold bind at 1. rewrite EN. cbn [ret snd]. exact Hnw. }
  pose proof (Get_no_writes dev r w1) as Hgw.
  destruct (Get dev r w1) as [[i o] w2] eqn:EG. cbn [snd] in Hgw.
  rewrite (main_after_preflight dev (e :: rest) brd bus pct r w1 i o w2
             ltac:(discriminate) EN EG) in Hw.
  destruct o as [x|].
  { exfalso. apply Hw. cbn [writes]. congruence. }
  destruct (Z.eqb_spec i 0) as [Hi|Hi].
  2:{ exfalso. apply Hw. cbn [writes]. congruence. }
  subst i.
  destruct (NewRelay_ok_log dev bus brd [] r w1 EN) as [Hb _].
  split; [discriminate|]. split; [reflexivity|]. split; [exact Hb|].
  exists r, w1, w2. split; [reflexivity | exact EG].
Qed.

Lemma main_writes_need_idle_board_witness :
  exists r w1 w2,
    NewRelay Samples.healthy 1 1 [] = ((Some r, None), w1) /\
    Get Samples.healthy r w1 = ((0, None), w2).
Proof.
  apply (main_writes_need_idle_board Samples.healthy Samples.two_zones
           1 1 100 false).
  vm_compute. discriminate.
Defined.

(** X29.  Past an idle preflight [main] starts the signal goroutine, runs
    the program, prints the error if the run failed, and closes the device
    as its last action, whether the run failed or not.  When the preflight
    read fails, [main] prints that it cannot talk to the relays and returns
    with the device still open: the log holds no close. *)
Theorem main_closes_after_run (dev : Device) (prog : program)
    (brd bus pct : Z) (r : Relay) (w1 w2 : log) (i : Z) (o : option error) :
  prog <> [] ->
  NewRelay dev bus brd [] = ((Some r, None), w1) ->
  Get dev r w1 = ((i, o), w2) ->
  (o = None -> i = 0 ->
   snd (main dev prog brd bus pct false [])
   = Sys (SysClose (file r))
     :: match fst (program_run dev prog r pct (Notify :: w2)) with
        | Some e => [Stderr (MsgFailed e)]
        | None => []
        end
     ++ snd (program_run dev prog r pct (Notify :: w2))) /\
  (forall e, o = Some e ->
   snd (main dev prog brd bus pct false [])
   = [Stderr (MsgCantTalk e);
      Sys (SysRead (file r) 2);
      Sys (SysIoctl (file r) slaveAddress (baseAddress - Z.land (brd - 1) 7));
      Sys (SysOpen bus)]).
Proof.
  intros Hne Hnew Hget.
  rewrite (main_after_preflight dev prog brd bus pct r w1 i o w2 Hne Hnew Hget).
  split.
  - intros -> ->. reflexivity.
  - intros e ->.
    pose proof (Get_log dev r w1) as Hg. rewrite Hget in Hg. cbn [snd] in Hg.
    destruct (NewRelay_ok_log dev bus brd [] r w1 Hnew) as [_ [_ Hw1]].
    rewrite Hg, Hw1. reflexivity.
Qed.

Lemma main_closes_after_run_witness :
  hd_error (snd (main zone2_fails Samples.two_zones 1 1 100 false []))
  = Some (Sys (SysClose 3)) /\
  snd (main Samples.short_read Samples.two_zones 1 1 100 false [])
  = [Stderr (MsgCantTalk (ShortRead 1 2)); Sys (SysRead 3 2);
     Sys (SysIoctl 3 slaveAddress (baseAddress - Z.land (1 - 1) 7));
     Sys (SysOpen 1)].
Proof.
  split.
  - rewrite (proj1 (main_closes_after_run zone2_fails Samples.two_zones 1 1 100
                      Samples.relay1 _ _ 0 None
                      ltac:(discriminate) eq_refl eq_refl) eq_refl eq_refl).
    reflexivity.
  - apply (proj2 (main_closes_after_run Samples.short_read Samples.two_zones
                    1 1 100 Samples.relay1 _ _ 0 (Some (ShortRead 1 2))
                    ltac:(discriminate) eq_refl eq_refl)).
    reflexivity.
Defined.

Section BasicFacts.
Variable Atoi : string -> Z * option error.
Variable dev : Device.

Lemma basic_main_opened brd bus cmd args r w1 :
  NewRelay dev bus brd [] = ((Some r, None), w1) ->
  BasicCmd.main Atoi dev brd bus (cmd :: args) []
  = (fst (BasicCmd.dispatch Atoi dev r cmd args w1),
     Sys (SysClose (file r)) :: snd (BasicCmd.dispatch Atoi dev r cmd args w1)).
Proof.
  intros Hnew. unfold BasicCmd.main.
  unfold bind at 1. rewrite Hnew.
  cbv [bind Close sys ret].
  destruct (BasicCmd.dispatch Atoi dev r cmd args w1). reflexivity.
Qed.

End BasicFacts.

(** X30.  The basic command, once the board is opened, closes the device
    as its last action on every path.  [get] performs one read and never
    writes.  [set] writes once, the mask parsed from its argument, with no
    check that it lies in 0 to 0xFF; with a missing or unparsable argument
    it writes nothing.  Any other command touches the device only to open,
    select and close it. *)
Theorem basic_command_effects
    (Atoi : string -> Z * option error) (dev : Device)
    (brd bus : Z) (cmd : string) (args : list string) (r : Relay) (w1 : log) :
  NewRelay dev bus brd [] = ((Some r, None), w1) ->
  hd_error (snd (BasicCmd.main Atoi dev brd bus (cmd :: args) []))
  = Some (Sys (SysClose (file r))) /\
  (cmd = "get"%string ->
   snd (BasicCmd.main Atoi dev brd bus (cmd :: args) [])
   = Sys (SysClose (file r)) :: Sys (SysRead (file r) 2) :: w1 /\
   writes (snd (BasicCmd.main Atoi dev brd bus (cmd :: args) [])) = []) /\
  (forall a rest i,
   cmd = "set"%string -> args = a :: rest -> Atoi a = (i, None) ->
   writes (snd (BasicCmd.main Atoi dev brd bus (cmd :: args) []))
   = [[writeAddress; relay2ic i]]) /\
  (cmd = "set"%string ->
   args = [] \/ (exists a rest, args = a :: rest /\ snd (Atoi a) <> None) ->
   writes (snd (BasicCmd.main Atoi dev brd bus (cmd :: args) [])) = []) /\
  (cmd <> "set"%string -> cmd <> "get"%string ->
   BasicCmd.main Atoi dev brd bus (cmd :: args) []
   = ([BasicCmd.InvalidCommand cmd; BasicCmd.Usage],
      Sys (SysClose (file r)) :: w1)).
Proof.
  intros Hnew.
  pose proof (NewRelay_no_writes dev bus brd []) as Hnw.
  rewrite Hnew in Hnw. cbn [snd writes] in Hnw.
  rewrite (basic_main_opened Atoi dev brd bus cmd args r w1 Hnew).
  cbn [snd hd_error].
  split; [reflexivity|]. split; [|split; [|split]].
  - intros ->. unfold BasicCmd.dispatch.
    change (String.eqb "get" "set") with false.
    change (String.eqb "get" "get") with true. cbv [bind].
    pose proof (Get_log dev r w1) as Hg.
    destruct (Get dev r w1) as [[v [e|]] w2]; cbn [snd] in Hg; subst w2;
      cbn [ret snd writes]; split; try reflexivity; exact Hnw.
  - intros a rest i -> -> Ha. unfold BasicCmd.dispatch.
    change (String.eqb "set" "set") with true. rewrite Ha. cbv [bind].
    pose proof (Set_log dev r i w1) as Hs.
    destruct (Set_ dev r i w1) as [[e|] w2]; cbn [snd] in Hs; subst w2;
      cbn [ret snd writes]; rewrite Hnw; reflexivity.
  - intros -> Hargs. unfold BasicCmd.dispatch.
    change (String.eqb "set" "set") with true.
    destruct Hargs as [-> | [a [rest [-> Ha]]]].
    + cbn [ret snd writes]. exact Hnw.
    + destruct (Atoi a) as [i [e|]]; [|cbn in Ha; congruence].
      cbn [ret snd writes]. exact Hnw.
  - intros Hs Hg. unfold BasicCmd.dispatch.
    apply String.eqb_neq in Hs. apply String.eqb_neq in Hg.
    rewrite Hs, Hg. reflexivity.
Qed.

Lemma basic_command_effects_witness :
  writes (snd (BasicCmd.main TestDouble.Atoi Samples.healthy 1 1
                 ["set"%string; "256"%string] []))
  = [[writeAddress; relay2ic 256]] /\
  writes (snd (BasicCmd.main TestDouble.Atoi Samples.healthy 1 1
                 ["get"%string] [])) = [].
Proof.
  split.
  - apply (proj1 (proj2 (proj2 (basic_command_effects TestDouble.Atoi
             Samples.healthy 1 1 "set" ["256"%string] Samples.relay1 _ eq_refl)))
             "256"%string [] 256); reflexivity.
  - apply (proj1 (proj2 (basic_command_effects TestDouble.Atoi
             Samples.healthy 1 1 "get" [] Samples.relay1 _ eq_refl))).
    reflexivity.
Defined.

(** ** The signal loop beside the run *)

Section GoroutineFacts.
Variable dev : Device.
Variable r : Relay.
Variable pct : Z.

Lemma main_steps_returned n res w :
  Goroutines.main_steps dev r pct n (Goroutines.Returned res) w
  = (Goroutines.Returned res, w).
Proof.
  induction n as [|k IH]; [reflexivity|].
  cbn [Goroutines.main_steps]. unfold bind. cbn [Goroutines.main_step ret].
  exact IH.
Qed.

(** Left alone, the steps of the main flow are [program.run]: four steps
    per event and one to return. *)
Lemma main_steps_program_run p : forall w,
  Goroutines.main_steps dev r pct (4 * length p + 1)
    (Goroutines.Running p Goroutines.OnWrite) w
  = (Goroutines.Returned (fst (program_run dev p r pct w)),
     snd (program_run dev p r pct w)).
Proof.
  induction p as [|e rest IH]; intros w; [reflexivity|].
  replace (4 * length (e :: rest) + 1)%nat
    with (S (S (S (S (4 * length rest + 1)))))%nat by (cbn [length]; lia).
  assert (Hrun : program_run dev (e :: rest) r pct w =
    match Set_ dev r (event_mask e) w with
    | (Some x, w1) => (Some x, w1)
    | (None, w1) =>
        program_run dev rest r pct
          (Sleep offTime
           :: snd (Set_ dev r 0
                     (Stderr (MsgSetOff (id e))
                      :: Sleep (scale (dur e) pct)
                      :: Stderr (MsgSetFor (id e) (scale (dur e) pct)) :: w1)))
    end).
  { cbn [program_run]. unfold bind. rewrite event_run_unfold.
    destruct (Set_ dev r (event_mask e) w) as [[x|] w1]; reflexivity. }
  rewrite Hrun. clear Hrun.
  cbn [Goroutines.main_steps]. unfold bind at 1.
  cbn [Goroutines.main_step]. unfold bind at 1.
  destruct (Set_ dev r (event_mask e) w) as [[x|] w1].
  - cbv [bind ret Goroutines.main_step].
    rewrite main_steps_returned. reflexivity.
  - cbv [bind ret emit Goroutines.main_step].
    match goal with |- context [Set_ dev r 0 ?l] =>
      destruct (Set_ dev r 0 l) as [o w2] end.
    cbn [snd]. apply IH.
Qed.

(** Left alone, the steps of the signal loop for one signal are the turn
    [handle_signal]. *)
Lemma handler_steps_turn s pending w :
  s <> SIGURG -> s <> SIGUSR1 ->
  Goroutines.handler_steps dev r 4 (Goroutines.Waiting (s :: pending)) w
  = (Goroutines.Exited, snd (handle_signal dev r s w)).
Proof.
  intros H1 H2. rewrite (handle_signal_terminates dev r s w H1 H2).
  apply Z.eqb_neq in H1. apply Z.eqb_neq in H2.
  cbv [Goroutines.handler_steps Goroutines.handler_step bind emit ret Close sys].
  rewrite H1. cbv beta iota. rewrite H2. cbv beta iota.
  pose proof (Set_log dev r 0 (Stderr (MsgGotSignal s) :: w)) as Hs.
  destruct (Set_ dev r 0 (Stderr (MsgGotSignal s) :: w)) as [o w1].
  cbn [snd] in Hs. subst w1. reflexivity.
Qed.

(** A schedule that never lets the signal loop in is a run of the main
    flow. *)
Lemma interleave_main_only n m sigs w :
  Goroutines.interleave dev r pct (repeat true n) m (Goroutines.Waiting sigs) w
  = (fst (Goroutines.main_steps dev r pct n m w), Goroutines.Waiting sigs,
     snd (Goroutines.main_steps dev r pct n m w)).
Proof.
  revert m w. induction n as [|k IH]; intros m w; [reflexivity|].
  cbn [repeat Goroutines.interleave Goroutines.main_steps]. unfold bind.
  destruct (Goroutines.main_step dev r pct m w) as [m' w']. apply IH.
Qed.

End GoroutineFacts.

(** C4.  Evaluation at the racing schedule.  "1:10s,2:10s" runs on a
    healthy device and SIGTERM arrives while zone 1 settles.  The signal
    loop writes all-off; before it has closed the device and exited,
    [program.run] wakes up and writes the mask of zone 2.  The process then
    exits with relay 2 energized: the last write issued is [0x01, 0x04],
    not [set(0)].  Nothing in [cleanup] or [event.run] keeps the two flows
    apart. *)
Theorem termination_race :
  snd (fst (Goroutines.interleave Samples.healthy Samples.relay1 100
              Goroutines.racing_schedule
              (Goroutines.Running Samples.two_zones Goroutines.OnWrite)
              (Goroutines.Waiting [SIGTERM]) []))
  = Goroutines.Exited /\
  hd_error (snd (Goroutines.interleave Samples.healthy Samples.relay1 100
                   Goroutines.racing_schedule
                   (Goroutines.Running Samples.two_zones Goroutines.OnWrite)
                   (Goroutines.Waiting [SIGTERM]) []))
  = Some (Exit 0) /\
  rev (writes (snd (Goroutines.interleave Samples.healthy Samples.relay1 100
                      Goroutines.racing_schedule
                      (Goroutines.Running Samples.two_zones Goroutines.OnWrite)
                      (Goroutines.Waiting [SIGTERM]) [])))
  = [[1; 1]; [1; 0]; [1; 0]; [1; 4]] /\
  last_write (snd (Goroutines.interleave Samples.healthy Samples.relay1 100
                     Goroutines.racing_schedule
                     (Goroutines.Running Samples.two_zones Goroutines.OnWrite)
                     (Goroutines.Waiting [SIGTERM]) []))
  = Some [writeAddress; relay2ic (event_mask (mkEvent 2 (10 * Second)))] /\
  last_write (snd (Goroutines.interleave Samples.healthy Samples.relay1 100
                     Goroutines.racing_schedule
                     (Goroutines.Running Samples.two_zones Goroutines.OnWrite)
                     (Goroutines.Waiting [SIGTERM]) []))
  <> Some [writeAddress; 0].
Proof.
  vm_compute. repeat split. discriminate.
Qed.
